(** * Downloader: redirect following, inactivity timer and cancellation

    A shallow embedding of [src/libtextosaurus/common/network-web/downloader.cpp].

    The [Downloader] class is a thin layer over Qt.  Its own methods are
    embedded one by one, in the order and with the names of the source
    (module [Dl]).  The Qt classes it drives ([QUrl], [QTimer],
    [QNetworkRequest], [QNetworkReply]) are not part of the repository; the
    modules [QUrl], [QTimer] and [Net] give each of them a small executable
    model of the behaviour the Downloader relies upon, and say where the
    model is coarser than Qt. *)

From Stdlib Require Import ZArith NArith List String Ascii Bool Lia DecimalString.
From stdpp Require Import base option strings gmap fin_maps.

Local Open Scope string_scope.
Local Open Scope Z_scope.

(** [QString] and [QByteArray] are both modelled as [string]; a null and an
    empty byte array are not told apart ([isEmpty] holds of both). *)
Abbreviation QString := string (only parsing).
Abbreviation QByteArray := string (only parsing).

Definition isEmpty (s : string) : bool :=
  match s with EmptyString => true | String _ _ => false end.

(** ** Text helpers used by the URL model *)

Module Text.

(** [cut_first c s]: the text before the first [c], and the text after it
    when [c] occurs ([QString::indexOf] followed by [left]/[mid]). *)
Fixpoint cut_first (c : ascii) (s : string) : string * option string :=
  match s with
  | EmptyString => (EmptyString, None)
  | String x s' =>
      if Ascii.eqb x c then (EmptyString, Some s')
      else let (a, b) := cut_first c s' in (String x a, b)
  end.

(** [cut_last c s]: the same, at the last occurrence ([lastIndexOf]). *)
Fixpoint cut_last (c : ascii) (s : string) : string * option string :=
  match s with
  | EmptyString => (EmptyString, None)
  | String x s' =>
      match cut_last c s' with
      | (a, Some b) => (String x a, Some b)
      | (_, None) => if Ascii.eqb x c then (EmptyString, Some s') else (s, None)
      end
  end.

(** [occurs c s]: does the character [c] occur in [s]. *)
Fixpoint occurs (c : ascii) (s : string) : bool :=
  match s with
  | EmptyString => false
  | String x s' => Ascii.eqb x c || occurs c s'
  end.

Definition starts_with_char (c : ascii) (s : string) : bool :=
  match s with
  | String x _ => Ascii.eqb x c
  | EmptyString => false
  end.

Definition in_range (lo hi : N) (c : ascii) : bool :=
  (N.leb lo (N_of_ascii c) && N.leb (N_of_ascii c) hi)%N.

Definition is_upper : ascii -> bool := in_range 65 90.
Definition is_lower : ascii -> bool := in_range 97 122.
Definition is_digit : ascii -> bool := in_range 48 57.

Definition to_lower_char (c : ascii) : ascii :=
  if is_upper c then ascii_of_N (N_of_ascii c + 32) else c.

Fixpoint to_lower (s : string) : string :=
  match s with
  | EmptyString => EmptyString
  | String x s' => String (to_lower_char x) (to_lower s')
  end.

Fixpoint all_chars (p : ascii -> bool) (s : string) : bool :=
  match s with
  | EmptyString => true
  | String x s' => p x && all_chars p s'
  end.

(** Decimal value of a run of digits. *)
Fixpoint digits_value (acc : N) (s : string) : N :=
  match s with
  | EmptyString => acc
  | String x s' => digits_value (acc * 10 + (N_of_ascii x - 48))%N s'
  end.

Definition decimal (n : N) : string := NilEmpty.string_of_uint (N.to_uint n).

End Text.

(** ** A model of [QUrl]

    The generic URI syntax as [QUrl] parses it in its default (tolerant)
    mode: [scheme ":" "//" userinfo "@" host ":" port path "?" query "#"
    fragment].  What the model leaves out: percent-encoding and its
    normalisation, internationalised host names, bracketed IPv6 literals and
    the validation of host characters. *)

Module QUrl.
Import Text.

Record Authority := mkAuthority {
  userInfo : option string;
  auth_host : string;
  port : option N
}.

Record t := mkUrl {
  scheme : string;
  authority : option Authority;
  path : string;
  query : option string;
  fragment : option string;
  invalidPort : bool
}.

(** [QUrl()], the empty URL; also what [QVariant::toUrl] gives for an
    attribute that is not set. *)
Definition empty : t := mkUrl "" None "" None None false.

(** [QUrl::host()]: empty when the URL has no authority. *)
Definition host (u : t) : string :=
  match authority u with
  | Some a => auth_host a
  | None => ""
  end.

(** A scheme is a letter followed by letters, digits, [+], [-] or [.]. *)
Definition scheme_char (c : ascii) : bool :=
  is_lower c || is_upper c || is_digit c
  || Ascii.eqb c "+" || Ascii.eqb c "-" || Ascii.eqb c ".".

Definition valid_scheme (s : string) : bool :=
  match s with
  | EmptyString => false
  | String x s' => (is_lower x || is_upper x) && all_chars scheme_char s'
  end.

(** The authority: user info up to the first [@], the port after the last
    [:] of what remains.  A port that is not a number below 65536 is an
    error; an empty port is no port. *)
Definition parse_authority (a : string) : Authority * bool :=
  let (ui, rest) :=
    match cut_first "@" a with
    | (u, Some r) => (Some u, r)
    | (_, None) => (None, a)
    end in
  match cut_last ":" rest with
  | (h, Some p) =>
      if isEmpty p then (mkAuthority ui (to_lower h) None, false)
      else if all_chars is_digit p && (digits_value 0 p <=? 65535)%N
           then (mkAuthority ui (to_lower h) (Some (digits_value 0 p)), false)
           else (mkAuthority ui (to_lower h) None, true)
  | (_, None) => (mkAuthority ui (to_lower rest) None, false)
  end.

(** The scheme is what stands before the first colon, when that is a valid
    scheme; otherwise there is no scheme and nothing is consumed. *)
Definition split_scheme (s : string) : string * string :=
  match cut_first ":" s with
  | (pre, Some post) => if valid_scheme pre then (to_lower pre, post) else ("", s)
  | (_, None) => ("", s)
  end.

(** The part before any [?] and [#] holds the scheme, the authority when it
    goes on with [//], and the path. *)
Definition from_parts (s2 : string) (qry frag : option string) : t :=
  let (sch, hier) := split_scheme s2 in
  match hier with
  | String "/" (String "/" rest) =>
      let (a, p) :=
        match cut_first "/" rest with
        | (a, Some p) => (a, String "/" p)
        | (a, None) => (a, "")
        end in
      let (au, err) := parse_authority a in
      mkUrl sch (Some au) p qry frag err
  | _ => mkUrl sch None hier qry frag false
  end.

(** [QUrl(const QString &)]: the fragment starts at the first [#], the query
    at the first [?] before it. *)
Definition fromString (s : string) : t :=
  let (s1, frag) := cut_first "#" s in
  let (s2, qry) := cut_first "?" s1 in
  from_parts s2 qry frag.

Definition authority_text (a : Authority) : string :=
  (match userInfo a with Some u => u +:+ "@" | None => "" end)
  +:+ auth_host a
  +:+ (match port a with Some p => ":" +:+ decimal p | None => "" end).

(** [QUrl::toString()]. *)
Definition toString (u : t) : string :=
  (if isEmpty (scheme u) then "" else scheme u +:+ ":")
  +:+ (match authority u with Some a => "//" +:+ authority_text a | None => "" end)
  +:+ path u
  +:+ (match query u with Some q => "?" +:+ q | None => "" end)
  +:+ (match fragment u with Some f => "#" +:+ f | None => "" end).

Definition is_empty (u : t) : bool :=
  isEmpty (scheme u) && negb (bool_decide (is_Some (authority u)))
  && isEmpty (path u)
  && negb (bool_decide (is_Some (query u)))
  && negb (bool_decide (is_Some (fragment u))).

(** A relative reference whose first path segment holds a colon is not a
    valid URL (it would read back as a scheme). *)
Definition colon_before_slash (u : t) : bool :=
  isEmpty (scheme u) && negb (bool_decide (is_Some (authority u)))
  && occurs ":" (fst (cut_first "/" (path u))).

(** [QUrl::isValid()]: not empty and free of errors. *)
Definition isValid (u : t) : bool :=
  negb (is_empty u) && negb (invalidPort u) && negb (colon_before_slash u).

End QUrl.

(** ** A model of [QTimer]

    [remaining] is [Some r] while the timer runs, with [r] milliseconds left
    until it times out.  [start] arms the timer with its interval; Qt
    refuses to start a timer with a negative interval ([QObject::startTimer]
    warns and starts nothing), and a timer with interval 0 times out as soon
    as control is back in the event loop. *)

Module QTimer.

Record t := mkTimer {
  interval : Z;
  singleShot : bool;
  remaining : option Z
}.

Definition isActive (tm : t) : bool := bool_decide (is_Some (remaining tm)).

Definition start (tm : t) : t :=
  mkTimer (interval tm) (singleShot tm)
          (if interval tm <? 0 then None else Some (interval tm)).

Definition stop (tm : t) : t :=
  mkTimer (interval tm) (singleShot tm) None.

(** [setInterval] on a running timer restarts it with the new interval. *)
Definition setInterval (msec : Z) (tm : t) : t :=
  let tm' := mkTimer msec (singleShot tm) (remaining tm) in
  if isActive tm then start tm' else tm'.

Definition setSingleShot (b : bool) (tm : t) : t :=
  mkTimer (interval tm) b (remaining tm).

(** [elapse ms tm]: [ms] milliseconds go by in the event loop.  The result
    says whether the [timeout] signal was emitted.  A single-shot timer is
    inactive after it; a repeating one is armed again. *)
Definition elapse (ms : Z) (tm : t) : bool * t :=
  match remaining tm with
  | None => (false, tm)
  | Some r =>
      if r <=? ms
      then (true, if singleShot tm then stop tm else start tm)
      else (false, mkTimer (interval tm) (singleShot tm) (Some (r - ms)))
  end.

End QTimer.

(** ** A model of the network classes *)

Module Net.

(** [QNetworkAccessManager::Operation]. *)
Inductive Operation :=
| HeadOperation
| GetOperation
| PutOperation
| PostOperation
| DeleteOperation
| CustomOperation.

#[global] Instance Operation_eq_dec : EqDecision Operation.
Proof. solve_decision. Defined.

(** [QNetworkReply::NetworkError], by its numeric code. *)
Definition NetworkError := Z.
Definition NoError : NetworkError := 0.
Definition OperationCanceledError : NetworkError := 5.

(** A [QVariant] that holds a string or nothing. *)
Definition QVariant := option string.

(** Values of the dynamic properties set on a reply. *)
Inductive Property :=
| PBool (b : bool)
| PString (s : string).

(** [QNetworkRequest]: a URL and the raw headers, in insertion order. *)
Record QNetworkRequest := mkRequest {
  url : QUrl.t;
  rawHeaders : list (QByteArray * QByteArray)
}.

Definition QNetworkRequest_new : QNetworkRequest := mkRequest QUrl.empty [].

Definition setUrl (u : QUrl.t) (r : QNetworkRequest) : QNetworkRequest :=
  mkRequest u (rawHeaders r).

(** Header names compare without regard to case. *)
Definition same_header (a b : QByteArray) : bool :=
  String.eqb (Text.to_lower a) (Text.to_lower b).

(** [rawHeader]: the value of the first header of that name, or empty. *)
Fixpoint find_header (name : QByteArray) (hs : list (QByteArray * QByteArray)) : QByteArray :=
  match hs with
  | [] => ""
  | (k, v) :: hs' => if same_header k name then v else find_header name hs'
  end.

Definition rawHeader (name : QByteArray) (r : QNetworkRequest) : QByteArray :=
  find_header name (rawHeaders r).

(** [setRawHeader]: any header of that name is erased, then the new pair is
    appended unless the value is null (which only erases). *)
Definition setRawHeader (name value : QByteArray) (r : QNetworkRequest) : QNetworkRequest :=
  let kept := List.filter (fun kv => negb (same_header (fst kv) name)) (rawHeaders r) in
  mkRequest (url r) (if isEmpty value then kept else kept ++ [(name, value)]).

(** What a reply holds once the transport is done with it. *)
Record Response := mkResponse {
  redirectionTarget : option QUrl.t;
  body : QByteArray;
  contentType : QVariant;
  netError : NetworkError
}.

Definition no_response : Response := mkResponse None "" None NoError.

(** [QNetworkReply]: the operation and request it was created for, the
    payload handed to the transport, its dynamic properties, whether
    [abort()] was called on it, and the response. *)
Record QNetworkReply := mkReply {
  operation : Operation;
  request : QNetworkRequest;
  sentData : option QByteArray;
  properties : gmap string Property;
  aborted : bool;
  response : Response
}.

Definition new_reply (op : Operation) (rq : QNetworkRequest) (data : option QByteArray)
  : QNetworkReply :=
  mkReply op rq data ∅ false no_response.

Definition setProperty (name : string) (v : Property) (r : QNetworkReply) : QNetworkReply :=
  mkReply (operation r) (request r) (sentData r) (<[name := v]> (properties r))
          (aborted r) (response r).

(** [abort()] marks the reply.  The [finished] signal of an aborted reply
    is a [Reply_finished] event of its own in the event loop below: where
    Qt emits it before [abort()] returns, that event follows the [cancel]
    at once, as in [[Call_cancel; Reply_finished resp]]. *)
Definition abort (r : QNetworkReply) : QNetworkReply :=
  mkReply (operation r) (request r) (sentData r) (properties r) true (response r).

(** [attribute(RedirectionTargetAttribute).toUrl()]. *)
Definition redirectionUrl (r : QNetworkReply) : QUrl.t :=
  match redirectionTarget (response r) with
  | Some u => u
  | None => QUrl.empty
  end.

(** The reply as it stands when it emits [finished]: the transport has
    filled in the response; an aborted reply reports
    [OperationCanceledError]. *)
Definition finish (resp : Response) (r : QNetworkReply) : QNetworkReply :=
  mkReply (operation r) (request r) (sentData r) (properties r) (aborted r)
          (if aborted r
           then mkResponse (redirectionTarget resp) (body resp) (contentType resp)
                           OperationCanceledError
           else resp).

End Net.

(** ** The Downloader *)

Module Dl.
Import Net.

(** Modelled from the spec: the constant [HTTP_HEADERS_CONTENT_TYPE], which
    the repository defines outside [downloader.cpp]; the spec calls it the
    content-type header.  No theorem below depends on its text. *)
Definition HTTP_HEADERS_CONTENT_TYPE : string := "Content-Type".

(** The fields of the class, as the constructor initialises them.  The
    network access manager [m_downloadManager] holds no state of interest;
    its calls are recorded as [Transport] effects. *)
Record Downloader := mkDownloader {
  m_activeReply : option QNetworkReply;
  m_timer : QTimer.t;
  m_customHeaders : gmap string string;
  m_inputData : QByteArray;
  m_targetProtected : bool;
  m_targetUsername : QString;
  m_targetPassword : QString;
  m_lastOutputData : QByteArray;
  m_lastOutputError : NetworkError;
  m_lastContentType : QVariant
}.

Definition set_m_activeReply (v : option QNetworkReply) (d : Downloader) : Downloader :=
  mkDownloader v (m_timer d) (m_customHeaders d) (m_inputData d) (m_targetProtected d)
    (m_targetUsername d) (m_targetPassword d) (m_lastOutputData d) (m_lastOutputError d)
    (m_lastContentType d).

Definition set_m_timer (v : QTimer.t) (d : Downloader) : Downloader :=
  mkDownloader (m_activeReply d) v (m_customHeaders d) (m_inputData d) (m_targetProtected d)
    (m_targetUsername d) (m_targetPassword d) (m_lastOutputData d) (m_lastOutputError d)
    (m_lastContentType d).

Definition set_m_customHeaders (v : gmap string string) (d : Downloader) : Downloader :=
  mkDownloader (m_activeReply d) (m_timer d) v (m_inputData d) (m_targetProtected d)
    (m_targetUsername d) (m_targetPassword d) (m_lastOutputData d) (m_lastOutputError d)
    (m_lastContentType d).

Definition set_m_inputData (v : QByteArray) (d : Downloader) : Downloader :=
  mkDownloader (m_activeReply d) (m_timer d) (m_customHeaders d) v (m_targetProtected d)
    (m_targetUsername d) (m_targetPassword d) (m_lastOutputData d) (m_lastOutputError d)
    (m_lastContentType d).

Definition set_m_targetProtected (v : bool) (d : Downloader) : Downloader :=
  mkDownloader (m_activeReply d) (m_timer d) (m_customHeaders d) (m_inputData d) v
    (m_targetUsername d) (m_targetPassword d) (m_lastOutputData d) (m_lastOutputError d)
    (m_lastContentType d).

Definition set_m_targetUsername (v : QString) (d : Downloader) : Downloader :=
  mkDownloader (m_activeReply d) (m_timer d) (m_customHeaders d) (m_inputData d)
    (m_targetProtected d) v (m_targetPassword d) (m_lastOutputData d) (m_lastOutputError d)
    (m_lastContentType d).

Definition set_m_targetPassword (v : QString) (d : Downloader) : Downloader :=
  mkDownloader (m_activeReply d) (m_timer d) (m_customHeaders d) (m_inputData d)
    (m_targetProtected d) (m_targetUsername d) v (m_lastOutputData d) (m_lastOutputError d)
    (m_lastContentType d).

Definition set_m_lastOutputData (v : QByteArray) (d : Downloader) : Downloader :=
  mkDownloader (m_activeReply d) (m_timer d) (m_customHeaders d) (m_inputData d)
    (m_targetProtected d) (m_targetUsername d) (m_targetPassword d) v (m_lastOutputError d)
    (m_lastContentType d).

Definition set_m_lastOutputError (v : NetworkError) (d : Downloader) : Downloader :=
  mkDownloader (m_activeReply d) (m_timer d) (m_customHeaders d) (m_inputData d)
    (m_targetProtected d) (m_targetUsername d) (m_targetPassword d) (m_lastOutputData d) v
    (m_lastContentType d).

Definition set_m_lastContentType (v : QVariant) (d : Downloader) : Downloader :=
  mkDownloader (m_activeReply d) (m_timer d) (m_customHeaders d) (m_inputData d)
    (m_targetProtected d) (m_targetUsername d) (m_targetPassword d) (m_lastOutputData d)
    (m_lastOutputError d) v.

(** What a method does to the outside: the signals it emits and the calls
    it makes on the network manager and on the active reply. *)
Inductive Effect :=
| Progress (bytes_received bytes_total : Z)
| Completed (status : NetworkError) (contents : QByteArray)
| Transport (op : Operation) (rq : QNetworkRequest) (data : option QByteArray)
| Abort
| DeleteLater.

(** A method body: it reads and writes the object's fields and leaves a
    list of effects, in order. *)
Definition Cmd (A : Type) : Type := Downloader -> A * Downloader * list Effect.

Definition ret {A} (a : A) : Cmd A := fun d => (a, d, []).

Definition bind {A B} (c : Cmd A) (k : A -> Cmd B) : Cmd B :=
  fun d =>
    let '(a, d1, e1) := c d in
    let '(b, d2, e2) := k a d1 in
    (b, d2, (e1 ++ e2)%list).

Definition get {A} (f : Downloader -> A) : Cmd A := fun d => (f d, d, []).
Definition modify (f : Downloader -> Downloader) : Cmd unit := fun d => (tt, f d, []).
Definition emit (e : Effect) : Cmd unit := fun d => (tt, d, [e]).

Declare Scope cmd_scope.
Delimit Scope cmd_scope with cmd.
Bind Scope cmd_scope with Cmd.
Notation "x <- c ;; k" := (bind c (fun x => k))
  (at level 100, c at next level, right associativity) : cmd_scope.
Notation "c ;; k" := (bind c (fun _ => k))
  (at level 100, right associativity) : cmd_scope.
Local Open Scope cmd_scope.

Definition state_after {A} (c : Cmd A) (d : Downloader) : Downloader := snd (fst (c d)).
Definition effects_of {A} (c : Cmd A) (d : Downloader) : list Effect := snd (c d).
Definition result_of {A} (c : Cmd A) (d : Downloader) : A := fst (fst (c d)).

(** [m_timer->f()] and [m_activeReply->f()]. *)
Definition timer (f : QTimer.t -> QTimer.t) : Cmd unit :=
  modify (fun d => set_m_timer (f (m_timer d)) d).

Definition activeReply (f : QNetworkReply -> QNetworkReply) : Cmd unit :=
  modify (fun d => set_m_activeReply (f <$> m_activeReply d) d).

(** [m_downloadManager->get(request)] and its siblings: the call goes out
    and a fresh reply object comes back. *)
Definition manager_call (op : Operation) (rq : QNetworkRequest) (data : option QByteArray)
  : Cmd QNetworkReply :=
  emit (Transport op rq data) ;;
  ret (new_reply op rq data).

(** The constructor.  [DOWNLOAD_TIMEOUT] is a constant of the repository
    defined outside [downloader.cpp]; it is taken as a parameter. *)
Definition Downloader_ctor (DOWNLOAD_TIMEOUT : Z) : Downloader :=
  mkDownloader None
    (QTimer.setSingleShot true
       (QTimer.setInterval DOWNLOAD_TIMEOUT (QTimer.mkTimer 0 false None)))
    ∅ "" false "" "" "" NoError None.

(** The four [run...Request] methods.  Each starts the timer, makes its
    call on the network manager, keeps the reply and tags it with the stored
    credentials.  Their two [connect] calls are what [handle] below stands
    for: the signals of the active reply reach [progressInternal] and
    [finished]. *)
Definition runDeleteRequest (request : QNetworkRequest) : Cmd unit :=
  timer QTimer.start ;;
  reply <- manager_call DeleteOperation request None ;;
  modify (set_m_activeReply (Some reply)) ;;
  p <- get m_targetProtected ;;
  activeReply (setProperty "protected" (PBool p)) ;;
  u <- get m_targetUsername ;;
  activeReply (setProperty "username" (PString u)) ;;
  w <- get m_targetPassword ;;
  activeReply (setProperty "password" (PString w)).

Definition runPutRequest (request : QNetworkRequest) (data : QByteArray) : Cmd unit :=
  timer QTimer.start ;;
  reply <- manager_call PutOperation request (Some data) ;;
  modify (set_m_activeReply (Some reply)) ;;
  p <- get m_targetProtected ;;
  activeReply (setProperty "protected" (PBool p)) ;;
  u <- get m_targetUsername ;;
  activeReply (setProperty "username" (PString u)) ;;
  w <- get m_targetPassword ;;
  activeReply (setProperty "password" (PString w)).

Definition runPostRequest (request : QNetworkRequest) (data : QByteArray) : Cmd unit :=
  timer QTimer.start ;;
  reply <- manager_call PostOperation request (Some data) ;;
  modify (set_m_activeReply (Some reply)) ;;
  p <- get m_targetProtected ;;
  activeReply (setProperty "protected" (PBool p)) ;;
  u <- get m_targetUsername ;;
  activeReply (setProperty "username" (PString u)) ;;
  w <- get m_targetPassword ;;
  activeReply (setProperty "password" (PString w)).

Definition runGetRequest (request : QNetworkRequest) : Cmd unit :=
  timer QTimer.start ;;
  reply <- manager_call GetOperation request None ;;
  modify (set_m_activeReply (Some reply)) ;;
  p <- get m_targetProtected ;;
  activeReply (setProperty "protected" (PBool p)) ;;
  u <- get m_targetUsername ;;
  activeReply (setProperty "username" (PString u)) ;;
  w <- get m_targetPassword ;;
  activeReply (setProperty "password" (PString w)).

(** The loop over [m_customHeaders].  A [QHash] is walked in an order the
    program does not control; [map_fold] walks the map in some fixed order. *)
Definition merge_custom_headers (headers : gmap string string) (request : QNetworkRequest)
  : QNetworkRequest :=
  map_fold setRawHeader request headers.

Definition manipulateData (url : QString) (operation : Operation) (data : QByteArray)
    (timeout : Z) (protected_contents : bool) (username password : QString) : Cmd unit :=
  let request := QNetworkRequest_new in
  headers <- get m_customHeaders ;;
  let request := merge_custom_headers headers request in
  let request :=
    if bool_decide (operation = PostOperation)
       && isEmpty (rawHeader HTTP_HEADERS_CONTENT_TYPE request)
    then setRawHeader HTTP_HEADERS_CONTENT_TYPE "application/x-www-form-urlencoded" request
    else request in
  modify (set_m_inputData data) ;;
  timer (QTimer.setInterval timeout) ;;
  let request := setUrl (QUrl.fromString url) request in
  modify (set_m_targetProtected protected_contents) ;;
  modify (set_m_targetUsername username) ;;
  modify (set_m_targetPassword password) ;;
  if bool_decide (operation = PostOperation) then
    input <- get m_inputData ;; runPostRequest request input
  else if bool_decide (operation = GetOperation) then
    runGetRequest request
  else if bool_decide (operation = PutOperation) then
    input <- get m_inputData ;; runPutRequest request input
  else if bool_decide (operation = DeleteOperation) then
    runDeleteRequest request
  else ret tt.

Definition downloadFile (url : QString) (timeout : Z) (protected_contents : bool)
    (username password : QString) : Cmd unit :=
  manipulateData url GetOperation "" timeout protected_contents username password.

Definition uploadFile (url : QString) (data : QByteArray) (timeout : Z)
    (protected_contents : bool) (username password : QString) : Cmd unit :=
  manipulateData url PostOperation data timeout protected_contents username password.

(** [emit completed(status, contents)].  A signal runs the slots connected
    to it before [emit] returns.  [slot] stands for such a slot: it may call
    the accessors of the Downloader, and what it reads there, at that
    moment, is the result. *)
Definition emit_completed {A} (slot : Downloader -> A) (status : NetworkError)
    (contents : QByteArray) : Cmd A :=
  emit (Completed status contents) ;;
  get slot.

(** [finished()]; [reply] is [sender()], the reply that emitted the signal.
    The result is what a slot connected to [completed] has read, if the
    signal was emitted. *)
Definition finished_observed {A} (slot : Downloader -> A) (reply : QNetworkReply)
  : Cmd (option A) :=
  let reply_operation := operation reply in
  timer QTimer.stop ;;
  let redirection_url := redirectionUrl reply in
  if QUrl.isValid redirection_url then
    let request := request reply in
    let request :=
      if isEmpty (QUrl.host redirection_url)
      then setUrl (QUrl.fromString (QUrl.scheme (url (Net.request reply)) +:+ "://"
                                    +:+ QUrl.host (url (Net.request reply))
                                    +:+ QUrl.toString redirection_url)) request
      else setUrl redirection_url request in
    emit DeleteLater ;;
    modify (set_m_activeReply None) ;;
    (if bool_decide (reply_operation = GetOperation) then
       runGetRequest request
     else if bool_decide (reply_operation = PostOperation) then
       input <- get m_inputData ;; runPostRequest request input
     else if bool_decide (reply_operation = PutOperation) then
       input <- get m_inputData ;; runPutRequest request input
     else if bool_decide (reply_operation = DeleteOperation) then
       runDeleteRequest request
     else ret tt) ;;
    ret None
  else
    modify (set_m_lastOutputData (body (response reply))) ;;
    modify (set_m_lastContentType (contentType (response reply))) ;;
    modify (set_m_lastOutputError (netError (response reply))) ;;
    emit DeleteLater ;;
    modify (set_m_activeReply None) ;;
    status <- get m_lastOutputError ;;
    contents <- get m_lastOutputData ;;
    seen <- emit_completed slot status contents ;;
    ret (Some seen).

(** [finished()] for its effects and the state it leaves, whatever the
    slots connected to [completed] read. *)
Definition finished (reply : QNetworkReply) : Cmd unit :=
  finished_observed (fun _ => tt) reply ;;
  ret tt.

Definition progressInternal (bytes_received bytes_total : Z) : Cmd unit :=
  tm <- get m_timer ;;
  (if 0 <? QTimer.interval tm then timer QTimer.start else ret tt) ;;
  emit (Progress bytes_received bytes_total).

Definition lastContentType (d : Downloader) : QVariant := m_lastContentType d.

Definition cancel : Cmd unit :=
  r <- get m_activeReply ;;
  match r with
  | Some _ => emit Abort ;; activeReply abort
  | None => ret tt
  end.

Definition appendRawHeader (name value : QByteArray) : Cmd unit :=
  if negb (isEmpty value)
  then modify (fun d => set_m_customHeaders (<[name := value]> (m_customHeaders d)) d)
  else ret tt.

Definition lastOutputError (d : Downloader) : NetworkError := m_lastOutputError d.

Definition lastOutputData (d : Downloader) : QByteArray := m_lastOutputData d.

(** *** The event loop

    Everything that happens to a Downloader: a caller invokes a public slot,
    the active reply emits one of the two signals that [run...Request]
    connected, or time goes by and the timer, connected to [cancel] by the
    constructor, may time out.  The two reply signals are those of the
    active reply: one operation at a time is assumed, so that [sender()] is
    [m_activeReply], and a reply that was released emits nothing more.  The
    methods [progressInternal] and [finished] themselves make no such test. *)
Inductive Event :=
| Call_downloadFile (url : QString) (timeout : Z) (protected_contents : bool)
    (username password : QString)
| Call_uploadFile (url : QString) (data : QByteArray) (timeout : Z)
    (protected_contents : bool) (username password : QString)
| Call_manipulateData (url : QString) (operation : Operation) (data : QByteArray)
    (timeout : Z) (protected_contents : bool) (username password : QString)
| Call_cancel
| Call_appendRawHeader (name value : QByteArray)
| Reply_downloadProgress (bytes_received bytes_total : Z)
| Reply_finished (resp : Response)
| Time_passes (ms : Z).

(** The timer's part of the event loop: [timeout] is connected to [cancel]. *)
Definition timer_tick (ms : Z) : Cmd unit :=
  tm <- get m_timer ;;
  let (fired, tm') := QTimer.elapse ms tm in
  modify (set_m_timer tm') ;;
  if fired then cancel else ret tt.

Definition handle (ev : Event) : Cmd unit :=
  match ev with
  | Call_downloadFile u t p n w => downloadFile u t p n w
  | Call_uploadFile u b t p n w => uploadFile u b t p n w
  | Call_manipulateData u o b t p n w => manipulateData u o b t p n w
  | Call_cancel => cancel
  | Call_appendRawHeader n v => appendRawHeader n v
  | Reply_downloadProgress r t =>
      a <- get m_activeReply ;;
      match a with
      | Some _ => progressInternal r t
      | None => ret tt
      end
  | Reply_finished resp =>
      a <- get m_activeReply ;;
      match a with
      | Some reply => finished (finish resp reply)
      | None => ret tt
      end
  | Time_passes ms => timer_tick ms
  end.

Fixpoint run (evs : list Event) : Cmd unit :=
  match evs with
  | [] => ret tt
  | ev :: evs' => handle ev ;; run evs'
  end.

End Dl.

(** ** Notions used to state the properties *)

Import Text Net Dl.
Local Open Scope cmd_scope.
Local Open Scope list_scope.

Definition no_upper (c : ascii) : bool := negb (is_upper c).

(** Characters of a plain host name as [QUrl::host()] reports it: lower
    case, and none of the delimiters of the URL syntax. *)
Definition host_char (c : ascii) : bool :=
  no_upper c
  && negb (Ascii.eqb c "/") && negb (Ascii.eqb c "?") && negb (Ascii.eqb c "#")
  && negb (Ascii.eqb c "@") && negb (Ascii.eqb c ":").

Definition plain_host (h : string) : bool := all_chars host_char h.

(** A scheme as [QUrl::scheme()] reports it: valid and in lower case. *)
Definition plain_scheme (s : string) : bool :=
  QUrl.valid_scheme s && all_chars no_upper s.

(** A text that starts with one slash, not two: an absolute path, possibly
    followed by a query and a fragment. *)
Definition absolute_path (loc : string) : bool :=
  match loc with
  | String "/" (String "/" _) => false
  | String "/" _ => true
  | _ => false
  end.

(** The three parts [QUrl.fromString] cuts a text into. *)
Definition hier_of (loc : string) : string :=
  fst (cut_first "?" (fst (cut_first "#" loc))).

Definition query_of (loc : string) : option string :=
  snd (cut_first "?" (fst (cut_first "#" loc))).

Definition fragment_of (loc : string) : option string :=
  snd (cut_first "#" loc).

(** The operations [manipulateData] and [finished] have a branch for. *)
Definition dispatchable (op : Operation) : bool :=
  match op with
  | GetOperation | PostOperation | PutOperation | DeleteOperation => true
  | HeadOperation | CustomOperation => false
  end.

(** The payload the transport call of an operation is given. *)
Definition payload (op : Operation) (data : QByteArray) : option QByteArray :=
  match op with
  | PostOperation | PutOperation => Some data
  | _ => None
  end.

(** The [run...Request] that goes with an operation: what the chains of
    [if]s at the end of [manipulateData] and of the redirect branch of
    [finished] select. *)
Definition run_request (operation : Operation) (request : QNetworkRequest) : Cmd unit :=
  match operation with
  | PostOperation => data <- get m_inputData ;; runPostRequest request data
  | GetOperation => runGetRequest request
  | PutOperation => data <- get m_inputData ;; runPutRequest request data
  | DeleteOperation => runDeleteRequest request
  | HeadOperation | CustomOperation => ret tt
  end.

(** The URL [finished] gives the follow-up request of a redirect. *)
Definition redirect_url (previous redirection_url : QUrl.t) : QUrl.t :=
  if isEmpty (QUrl.host redirection_url)
  then QUrl.fromString (QUrl.scheme previous +:+ "://" +:+ QUrl.host previous
                        +:+ QUrl.toString redirection_url)
  else redirection_url.

(** The reply object a [run...Request] leaves in [m_activeReply]. *)
Definition issued_reply (d : Downloader) (op : Operation) (rq : QNetworkRequest) : QNetworkReply :=
  setProperty "password" (PString (m_targetPassword d))
    (setProperty "username" (PString (m_targetUsername d))
      (setProperty "protected" (PBool (m_targetProtected d))
        (new_reply op rq (payload op (m_inputData d))))).

(** The last outcome, as the three accessors give it. *)
Definition last_outcome (d : Downloader) : QByteArray * NetworkError * QVariant :=
  (lastOutputData d, lastOutputError d, lastContentType d).

Definition is_completed (e : Effect) : bool :=
  match e with
  | Completed _ _ => true
  | _ => false
  end.

(** How many [completed] signals a list of effects holds. *)
Definition completions (es : list Effect) : nat := length (List.filter is_completed es).

(** Does a response carry a valid redirection target. *)
Definition is_redirect (resp : Response) : bool :=
  QUrl.isValid (match redirectionTarget resp with Some u => u | None => QUrl.empty end).

(** The events that may occur inside a redirect chain, between the dispatch
    and the final completion: progress, time going by, a cancellation, and
    replies that finish with a redirect. *)
Definition chain_event (ev : Event) : bool :=
  match ev with
  | Reply_downloadProgress _ _ | Time_passes _ | Call_cancel => true
  | Reply_finished resp => is_redirect resp
  | _ => false
  end.

(** The request a redirect is followed with. *)
Definition follow_up (reply : QNetworkReply) : QNetworkRequest :=
  setUrl (redirect_url (url (request reply)) (redirectionUrl reply)) (request reply).

(** The state in the middle of a redirect chain: a reply is active, and its
    operation is one the Downloader dispatches. *)
Definition in_flight (d : Downloader) : Prop :=
  exists r, m_activeReply d = Some r /\ dispatchable (operation r) = true.

(** Every reply the Downloader holds was made by one of the four
    [run...Request] methods. *)
Definition replies_dispatchable (d : Downloader) : Prop :=
  forall r, m_activeReply d = Some r -> dispatchable (operation r) = true.

(** Concrete inputs for the examples: a fresh Downloader, the reply to a
    request for [from] that the transport finishes with a redirect to
    [target], and a Downloader with a GET under way. *)
Definition sample_downloader : Downloader := Downloader_ctor 5000.

Definition sample_request (from : string) : QNetworkRequest :=
  setUrl (QUrl.fromString from) QNetworkRequest_new.

Definition sample_reply (op : Operation) (from target : string) : QNetworkReply :=
  finish (mkResponse (Some (QUrl.fromString target)) "" None NoError)
         (issued_reply sample_downloader op (sample_request from)).

Definition sample_active : Downloader :=
  state_after (downloadFile "http://example.com/old" 5000 false "" "") sample_downloader.

(** ** The status widget

    [src/libtextosaurus/common/gui/widgetwithstatus.cpp].  The enumeration
    [StatusType] is declared in the header, which is not under [src/]; its
    five values are those the [switch] of [setStatus] names.  The icon
    factory [qApp->icons()->fromTheme] is outside the file as well and is a
    parameter of the constructor; [QIcon] is any type of icons. *)

Module Wws.

Inductive StatusType :=
| Information
| Warning
| Error
| Ok
| Progress.

(** [Qt::FocusPolicy]. *)
Inductive FocusPolicy :=
| NoFocus
| TabFocus
| ClickFocus
| StrongFocus
| WheelFocus.

(** The status button: its icon (none until one is set), its tool tip and
    its focus policy. *)
Record PlainToolButton (QIcon : Type) := mkButton {
  icon : option QIcon;
  toolTip : QString;
  focusPolicy : FocusPolicy
}.
Arguments mkButton {QIcon}.
Arguments icon {QIcon}.
Arguments toolTip {QIcon}.
Arguments focusPolicy {QIcon}.

Record WidgetWithStatus (QIcon : Type) := mkWidget {
  m_status : StatusType;
  m_wdgInput : option unit;
  m_layout_margin : Z;
  m_btnStatus : PlainToolButton QIcon;
  m_iconProgress : QIcon;
  m_iconInformation : QIcon;
  m_iconWarning : QIcon;
  m_iconError : QIcon;
  m_iconOk : QIcon
}.
Arguments mkWidget {QIcon}.
Arguments m_status {QIcon}.
Arguments m_wdgInput {QIcon}.
Arguments m_layout_margin {QIcon}.
Arguments m_btnStatus {QIcon}.
Arguments m_iconProgress {QIcon}.
Arguments m_iconInformation {QIcon}.
Arguments m_iconWarning {QIcon}.
Arguments m_iconError {QIcon}.
Arguments m_iconOk {QIcon}.

Definition setIcon {QIcon} (i : QIcon) (b : PlainToolButton QIcon) : PlainToolButton QIcon :=
  mkButton (Some i) (toolTip b) (focusPolicy b).

Definition setToolTip {QIcon} (t : QString) (b : PlainToolButton QIcon) : PlainToolButton QIcon :=
  mkButton (icon b) t (focusPolicy b).

Definition set_m_status {QIcon} (s : StatusType) (w : WidgetWithStatus QIcon)
  : WidgetWithStatus QIcon :=
  mkWidget s (m_wdgInput w) (m_layout_margin w) (m_btnStatus w) (m_iconProgress w)
    (m_iconInformation w) (m_iconWarning w) (m_iconError w) (m_iconOk w).

Definition on_btnStatus {QIcon} (f : PlainToolButton QIcon -> PlainToolButton QIcon)
    (w : WidgetWithStatus QIcon) : WidgetWithStatus QIcon :=
  mkWidget (m_status w) (m_wdgInput w) (m_layout_margin w) (f (m_btnStatus w))
    (m_iconProgress w) (m_iconInformation w) (m_iconWarning w) (m_iconError w) (m_iconOk w).

Definition setStatus {QIcon} (status : StatusType) (tooltip_text : QString)
    (w : WidgetWithStatus QIcon) : WidgetWithStatus QIcon :=
  let w := set_m_status status w in
  let w :=
    match status with
    | Information => on_btnStatus (setIcon (m_iconInformation w)) w
    | Progress => on_btnStatus (setIcon (m_iconProgress w)) w
    | Warning => on_btnStatus (setIcon (m_iconWarning w)) w
    | Error => on_btnStatus (setIcon (m_iconError w)) w
    | Ok => on_btnStatus (setIcon (m_iconOk w)) w
    end in
  on_btnStatus (setToolTip tooltip_text) w.

(** The constructor: status [Ok] by the initialiser list, a button without
    focus, the five themed icons, no margin, and then
    [setStatus(StatusType::Information, QString())]. *)
Definition WidgetWithStatus_ctor {QIcon} (fromTheme : string -> QIcon) : WidgetWithStatus QIcon :=
  setStatus Information ""
    (mkWidget Ok None 0 (mkButton None "" NoFocus)
       (fromTheme "view-refresh") (fromTheme "dialog-information")
       (fromTheme "dialog-warning") (fromTheme "dialog-error") (fromTheme "dialog-yes")).

(** The theme name of the icon that stands for a status. *)
Definition theme_name (s : StatusType) : string :=
  match s with
  | Information => "dialog-information"
  | Warning => "dialog-warning"
  | Error => "dialog-error"
  | Ok => "dialog-yes"
  | Progress => "view-refresh"
  end.

(** A widget after a series of [setStatus] calls, the first call first. *)
Definition after_calls {QIcon} (calls : list (StatusType * QString))
    (w : WidgetWithStatus QIcon) : WidgetWithStatus QIcon :=
  fold_left (fun w c => setStatus (fst c) (snd c) w) calls w.

End Wws.

(** ** Further notions about the Downloader *)

(** The events that come from the outside without asking for anything new:
    the two reply signals, the timer and [cancel]. *)
Definition passive_event (ev : Event) : bool :=
  match ev with
  | Call_cancel | Reply_downloadProgress _ _ | Reply_finished _ | Time_passes _ => true
  | _ => false
  end.

(** Of these, the events that do not come from a reply. *)
Definition quiet_event (ev : Event) : bool :=
  match ev with
  | Call_cancel | Time_passes _ => true
  | _ => false
  end.

(** A series of progress ticks, each after a pause: [(gap, received, total)]. *)
Definition tick_events (ticks : list (Z * Z * Z)) : list Event :=
  flat_map (fun k => [Time_passes (fst (fst k)); Reply_downloadProgress (snd (fst k)) (snd k)])
           ticks.

(** Is the event a call that registers a custom header under [name]. *)
Definition registers (name : QByteArray) (ev : Event) : bool :=
  match ev with
  | Call_appendRawHeader n v => String.eqb n name && negb (isEmpty v)
  | _ => false
  end.

(** The Downloader a series of events leads to, from its construction. *)
Definition reached (DOWNLOAD_TIMEOUT : Z) (evs : list Event) : Downloader :=
  state_after (run evs) (Downloader_ctor DOWNLOAD_TIMEOUT).

Definition is_abort (e : Effect) : bool :=
  match e with
  | Abort => true
  | _ => false
  end.

(** A Downloader with an operation under way and the timer counting down
    the whole of [timeout]: a reply is active and not aborted. *)
Definition armed (timeout : Z) (d : Downloader) : Prop :=
  exists r ss,
    m_activeReply d = Some r
    /\ aborted r = false
    /\ m_timer d = QTimer.mkTimer timeout ss (Some timeout).

Definition is_transport (e : Effect) : bool :=
  match e with
  | Transport _ _ _ => true
  | _ => false
  end.

(** The events of a wait: time going by and progress ticks. *)
Definition waiting_event (ev : Event) : bool :=
  match ev with
  | Time_passes _ | Reply_downloadProgress _ _ => true
  | _ => false
  end.

(** A response that redirects to the text [loc], the rest taken from [resp]. *)
Definition redirect_to (loc : string) (resp : Response) : Response :=
  mkResponse (Some (QUrl.fromString loc)) (body resp) (contentType resp) (netError resp).

(** A reply is active, of a dispatched operation, for a request to the
    scheme [sch] and host [h]. *)
Definition requesting (sch h : string) (op : Operation) (d : Downloader) : Prop :=
  exists r,
    m_activeReply d = Some r
    /\ operation r = op
    /\ QUrl.scheme (url (request r)) = sch
    /\ QUrl.host (url (request r)) = h.

(** What the constructor of the status widget sets up and [setStatus]
    keeps: the five icons are the themed ones, the button shows the icon of
    the status, takes no focus, and the layout has no margin. *)
Definition widget_ok {QIcon : Type} (fromTheme : string -> QIcon)
    (w : Wws.WidgetWithStatus QIcon) : Prop :=
  Wws.m_iconProgress w = fromTheme "view-refresh"
  /\ Wws.m_iconInformation w = fromTheme "dialog-information"
  /\ Wws.m_iconWarning w = fromTheme "dialog-warning"
  /\ Wws.m_iconError w = fromTheme "dialog-error"
  /\ Wws.m_iconOk w = fromTheme "dialog-yes"
  /\ Wws.icon (Wws.m_btnStatus w) = Some (fromTheme (Wws.theme_name (Wws.m_status w)))
  /\ Wws.focusPolicy (Wws.m_btnStatus w) = Wws.NoFocus
  /\ Wws.m_layout_margin w = 0.

(** ** Facts about the text helpers *)

Section TextFacts.

Lemma append_cons x (a b : string) : String x a +:+ b = String x (a +:+ b).
Proof. reflexivity. Qed.

Lemma append_nil_l (b : string) : "" +:+ b = b.
Proof. reflexivity. Qed.

Lemma append_empty_r (s : string) : s +:+ "" = s.
Proof.
  induction s as [|x s IH]; [reflexivity|]. now rewrite append_cons, IH.
Qed.

Lemma append_assoc (a b c : string) : (a +:+ b) +:+ c = a +:+ (b +:+ c).
Proof.
  induction a as [|x a IH]; [reflexivity|]. now rewrite !append_cons, IH.
Qed.

Lemma occurs_append c a b : occurs c (a +:+ b) = occurs c a || occurs c b.
Proof.
  induction a as [|x a IH]; [reflexivity|].
  rewrite append_cons. simpl. rewrite IH. now rewrite orb_assoc.
Qed.

Lemma cut_first_skip c pre t :
  occurs c pre = false ->
  cut_first c (pre +:+ t) = (pre +:+ fst (cut_first c t), snd (cut_first c t)).
Proof.
  induction pre as [|x pre IH]; intros H.
  - rewrite !append_nil_l. now destruct (cut_first c t).
  - simpl in H. apply orb_false_iff in H as [Hx Hp].
    rewrite !append_cons. simpl. rewrite Hx, (IH Hp). reflexivity.
Qed.

Lemma cut_first_here c t : cut_first c (String c t) = ("", Some t).
Proof. simpl. now rewrite Ascii.eqb_refl. Qed.

Lemma cut_first_absent c s : occurs c s = false -> cut_first c s = (s, None).
Proof.
  induction s as [|x s IH]; simpl; intros H; [reflexivity|].
  apply orb_false_iff in H as [Hx Hs]. now rewrite Hx, (IH Hs).
Qed.

Lemma cut_last_absent c s : occurs c s = false -> cut_last c s = (s, None).
Proof.
  induction s as [|x s IH]; simpl; intros H; [reflexivity|].
  apply orb_false_iff in H as [Hx Hs]. now rewrite (IH Hs), Hx.
Qed.

Lemma cut_first_join c s :
  s = fst (cut_first c s)
      +:+ match snd (cut_first c s) with Some b => String c b | None => "" end.
Proof.
  induction s as [|x s IH]; simpl; [reflexivity|].
  destruct (Ascii.eqb_spec x c) as [->|Hne]; simpl; [reflexivity|].
  destruct (cut_first c s) as [a b]; simpl in *. rewrite append_cons. f_equal. exact IH.
Qed.

Lemma all_chars_occurs p c s :
  p c = false -> all_chars p s = true -> occurs c s = false.
Proof.
  intros Hc. induction s as [|x s IH]; simpl; [reflexivity|].
  intros H. apply andb_true_iff in H as [Hx Hs].
  rewrite (IH Hs), orb_false_r.
  destruct (Ascii.eqb_spec x c) as [->|]; [congruence | reflexivity].
Qed.

Lemma all_chars_weaken (p q : ascii -> bool) s :
  (forall c, p c = true -> q c = true) -> all_chars p s = true -> all_chars q s = true.
Proof.
  intros Hpq. induction s as [|x s IH]; simpl; [reflexivity|].
  intros H. apply andb_true_iff in H as [Hx Hs]. now rewrite (Hpq _ Hx), (IH Hs).
Qed.

Lemma to_lower_fixed s : all_chars no_upper s = true -> to_lower s = s.
Proof.
  induction s as [|x s IH]; simpl; [reflexivity|].
  intros H. apply andb_true_iff in H as [Hx Hs]. rewrite (IH Hs).
  unfold to_lower_char, no_upper in *. now destruct (is_upper x).
Qed.

End TextFacts.

(** ** Facts about the URL model *)

Section UrlFacts.

Lemma fromString_parts s :
  QUrl.fromString s = QUrl.from_parts (hier_of s) (query_of s) (fragment_of s).
Proof.
  unfold QUrl.fromString, hier_of, query_of, fragment_of.
  destruct (cut_first "#" s) as [s1 frag]. simpl.
  now destruct (cut_first "?" s1) as [s2 qry].
Qed.

Lemma scheme_char_not c x :
  QUrl.scheme_char x = false -> QUrl.scheme_char c = true -> Ascii.eqb c x = false.
Proof.
  intros Hx Hc. destruct (Ascii.eqb_spec c x) as [->|]; [congruence | reflexivity].
Qed.

Lemma valid_scheme_chars s : QUrl.valid_scheme s = true -> all_chars QUrl.scheme_char s = true.
Proof.
  destruct s as [|x s]; simpl; [discriminate|].
  intros H. apply andb_true_iff in H as [Hx Hs]. rewrite Hs, andb_true_r.
  unfold QUrl.scheme_char. apply orb_true_iff in Hx as [->| ->]; simpl; [reflexivity|].
  now rewrite orb_true_r.
Qed.

Lemma scheme_free_of s c :
  QUrl.valid_scheme s = true -> QUrl.scheme_char c = false -> occurs c s = false.
Proof.
  intros Hs Hc. eapply all_chars_occurs; [exact Hc | now apply valid_scheme_chars].
Qed.

Lemma host_free_of h c :
  plain_host h = true -> host_char c = false -> occurs c h = false.
Proof. intros Hh Hc. eapply all_chars_occurs; eauto. Qed.

Lemma hier_of_head loc :
  starts_with_char "/" loc = true -> exists p, hier_of loc = String "/" p.
Proof.
  destruct loc as [|x loc]; [discriminate|]. simpl. intros H.
  apply Ascii.eqb_eq in H as ->. unfold hier_of. simpl.
  destruct (cut_first "#" loc) as [a b]. simpl.
  destruct (cut_first "?" a) as [a' b']. simpl. now exists a'.
Qed.

Lemma hier_of_skip pre loc :
  occurs "#" pre = false -> occurs "?" pre = false ->
  hier_of (pre +:+ loc) = pre +:+ hier_of loc
  /\ query_of (pre +:+ loc) = query_of loc
  /\ fragment_of (pre +:+ loc) = fragment_of loc.
Proof.
  intros H1 H2. unfold hier_of, query_of, fragment_of.
  rewrite (cut_first_skip "#") by assumption. cbn [fst snd].
  rewrite (cut_first_skip "?") by assumption. auto.
Qed.

Lemma fromString_rebuilt sch h loc :
  plain_scheme sch = true -> plain_host h = true ->
  starts_with_char "/" loc = true ->
  QUrl.fromString (sch +:+ "://" +:+ h +:+ loc)
  = QUrl.mkUrl sch (Some (QUrl.mkAuthority None h None))
      (hier_of loc) (query_of loc) (fragment_of loc) false.
Proof.
  intros Hs Hh Hl. apply andb_true_iff in Hs as [Hv Hlow].
  destruct (hier_of_head loc Hl) as [p Hp].
  assert (Hpre : forall c, QUrl.scheme_char c = false -> host_char c = false ->
                 Ascii.eqb ":" c = false -> Ascii.eqb "/" c = false ->
                 occurs c (sch +:+ "://" +:+ h) = false).
  { intros c H1 H2 H3 H4. rewrite !occurs_append. cbn [occurs].
    rewrite (scheme_free_of _ _ Hv H1), (host_free_of _ _ Hh H2), H3, H4. reflexivity. }
  rewrite fromString_parts.
  replace (sch +:+ "://" +:+ h +:+ loc) with ((sch +:+ "://" +:+ h) +:+ loc)
    by now rewrite !append_assoc.
  destruct (hier_of_skip (sch +:+ "://" +:+ h) loc) as (-> & -> & ->);
    [now apply Hpre | now apply Hpre |].
  rewrite Hp, !append_assoc.
  unfold QUrl.from_parts, QUrl.split_scheme.
  rewrite (cut_first_skip ":" sch) by now apply scheme_free_of.
  rewrite !append_cons, append_nil_l, cut_first_here. cbn [fst snd].
  rewrite append_empty_r, Hv, (to_lower_fixed _ Hlow).
  rewrite (cut_first_skip "/" h) by now apply host_free_of.
  rewrite cut_first_here. cbn [fst snd].
  rewrite append_empty_r.
  unfold QUrl.parse_authority.
  rewrite (cut_first_absent "@" h) by now apply host_free_of.
  rewrite (cut_last_absent ":" h) by now apply host_free_of.
  rewrite to_lower_fixed; [reflexivity|].
  eapply all_chars_weaken; [|exact Hh]. intros c Hc. unfold host_char in Hc.
  repeat (apply andb_true_iff in Hc as [Hc _]). exact Hc.
Qed.

Lemma hier_of_cons loc :
  hier_of (String "/" loc) = String "/" (hier_of loc)
  /\ query_of (String "/" loc) = query_of loc
  /\ fragment_of (String "/" loc) = fragment_of loc.
Proof.
  unfold hier_of, query_of, fragment_of. simpl.
  destruct (cut_first "#" loc) as [a b]. simpl.
  destruct (cut_first "?" a) as [a' b']. simpl. auto.
Qed.

Lemma hier_of_no_slash loc :
  starts_with_char "/" loc = false -> starts_with_char "/" (hier_of loc) = false.
Proof.
  destruct loc as [|y r]; [reflexivity|]. unfold hier_of. simpl. intros Hy.
  destruct (Ascii.eqb y "#"); [reflexivity|].
  destruct (cut_first "#" r) as [a b]. simpl.
  destruct (Ascii.eqb y "?"); [reflexivity|].
  destruct (cut_first "?" a) as [a' b']. simpl. exact Hy.
Qed.

Lemma loc_join loc :
  loc = hier_of loc
        +:+ match query_of loc with Some q => "?" +:+ q | None => "" end
        +:+ match fragment_of loc with Some f => "#" +:+ f | None => "" end.
Proof.
  unfold hier_of, query_of, fragment_of.
  rewrite (cut_first_join "#" loc) at 1.
  rewrite (cut_first_join "?" (fst (cut_first "#" loc))) at 1.
  rewrite append_assoc. reflexivity.
Qed.

Lemma fromString_absolute_path loc :
  absolute_path loc = true ->
  QUrl.fromString loc
  = QUrl.mkUrl "" None (hier_of loc) (query_of loc) (fragment_of loc) false.
Proof.
  intros Ha.
  assert (exists r, loc = String "/" r /\ starts_with_char "/" r = false) as (r & -> & Hr).
  { destruct loc as [|x r]; [discriminate|].
    destruct (Ascii.eqb_spec x "/") as [->|Hx].
    - exists r. split; [reflexivity|]. destruct r as [|y r]; [reflexivity|].
      simpl in *. destruct (Ascii.eqb_spec y "/") as [->|]; [discriminate | reflexivity].
    - exfalso. destruct x as [[] [] [] [] [] [] [] []]; try discriminate Ha. now apply Hx. }
  destruct (hier_of_cons r) as (Hp & Hq & Hf).
  apply hier_of_no_slash in Hr.
  rewrite fromString_parts, Hp, Hq, Hf. unfold QUrl.from_parts.
  assert (Hsch : QUrl.split_scheme (String "/" (hier_of r)) = ("", String "/" (hier_of r))).
  { unfold QUrl.split_scheme. simpl.
    destruct (cut_first ":" (hier_of r)) as [a [b|]]; reflexivity. }
  rewrite Hsch.
  destruct (hier_of r) as [|y p]; [reflexivity|].
  simpl in Hr. destruct (Ascii.eqb_spec y "/") as [->|Hy]; [discriminate|].
  destruct y as [[] [] [] [] [] [] [] []]; try reflexivity. now exfalso.
Qed.

Lemma toString_absolute_path loc :
  absolute_path loc = true -> QUrl.toString (QUrl.fromString loc) = loc.
Proof.
  intros Ha. rewrite (fromString_absolute_path _ Ha).
  unfold QUrl.toString. cbn [QUrl.scheme QUrl.authority QUrl.path QUrl.query QUrl.fragment isEmpty].
  rewrite !append_nil_l. symmetry. apply loc_join.
Qed.

End UrlFacts.

(** ** Facts about the Downloader's methods *)

Section DownloaderFacts.

Lemma run_request_dispatchable op rq d :
  dispatchable op = true ->
  run_request op rq d
  = (tt,
     set_m_activeReply (Some (issued_reply d op rq)) (set_m_timer (QTimer.start (m_timer d)) d),
     [Transport op rq (payload op (m_inputData d))]).
Proof.
  destruct op; intros H; try discriminate H; destruct d; reflexivity.
Qed.

Lemma run_request_other op rq d :
  dispatchable op = false -> run_request op rq d = (tt, d, []).
Proof. destruct op; intros H; try discriminate H; reflexivity. Qed.

Lemma finished_redirect reply d :
  QUrl.isValid (redirectionUrl reply) = true ->
  finished reply d
  = (let d1 := set_m_activeReply None (set_m_timer (QTimer.stop (m_timer d)) d) in
     let '(_, d2, es) := run_request (operation reply) (follow_up reply) d1 in
     (tt, d2, DeleteLater :: es)).
Proof.
  intros Hv. unfold finished, finished_observed, follow_up, redirect_url.
  cbv [bind timer modify emit ret].
  rewrite Hv.
  destruct (isEmpty (QUrl.host (redirectionUrl reply)));
    destruct (operation reply); reflexivity.
Qed.

Lemma finished_final reply d :
  QUrl.isValid (redirectionUrl reply) = false ->
  finished reply d
  = (tt,
     mkDownloader None (QTimer.stop (m_timer d)) (m_customHeaders d) (m_inputData d)
       (m_targetProtected d) (m_targetUsername d) (m_targetPassword d)
       (body (response reply)) (netError (response reply)) (contentType (response reply)),
     [DeleteLater; Completed (netError (response reply)) (body (response reply))]).
Proof.
  intros Hv. unfold finished, finished_observed, emit_completed.
  cbv [bind timer modify emit get ret].
  rewrite Hv. reflexivity.
Qed.

(** What a slot connected to [completed] reads: the state as it is when the
    signal goes out. *)
Lemma finished_observed_result {A} (slot : Downloader -> A) reply d :
  result_of (finished_observed slot reply) d
  = if QUrl.isValid (redirectionUrl reply) then None
    else Some (slot (mkDownloader None (QTimer.stop (m_timer d)) (m_customHeaders d)
                       (m_inputData d) (m_targetProtected d) (m_targetUsername d)
                       (m_targetPassword d) (body (response reply))
                       (netError (response reply)) (contentType (response reply)))).
Proof.
  unfold result_of, finished_observed, emit_completed.
  cbv [bind timer modify emit get ret].
  destruct (QUrl.isValid (redirectionUrl reply)); [|reflexivity].
  destruct (isEmpty (QUrl.host (redirectionUrl reply)));
    destruct (operation reply); reflexivity.
Qed.

Lemma manipulateData_run url op data timeout p u w d :
  manipulateData url op data timeout p u w d
  = run_request op
      (setUrl (QUrl.fromString url)
         (let merged := merge_custom_headers (m_customHeaders d) QNetworkRequest_new in
          if bool_decide (op = PostOperation) && isEmpty (rawHeader HTTP_HEADERS_CONTENT_TYPE merged)
          then setRawHeader HTTP_HEADERS_CONTENT_TYPE "application/x-www-form-urlencoded" merged
          else merged))
      (mkDownloader (m_activeReply d) (QTimer.setInterval timeout (m_timer d))
         (m_customHeaders d) data p u w
         (m_lastOutputData d) (m_lastOutputError d) (m_lastContentType d)).
Proof.
  unfold manipulateData. destruct op; reflexivity.
Qed.

End DownloaderFacts.

Section Headers.

Lemma same_header_refl a : same_header a a = true.
Proof. unfold same_header. apply String.eqb_refl. Qed.

Lemma same_header_trans a b c :
  same_header a b = true -> same_header b c = true -> same_header a c = true.
Proof.
  unfold same_header. rewrite !String.eqb_eq. congruence.
Qed.

Lemma same_header_sym a b : same_header a b = same_header b a.
Proof. unfold same_header. apply String.eqb_sym. Qed.

Lemma find_header_erased name k v hs :
  same_header k name = true ->
  find_header name (List.filter (fun kv => negb (same_header (fst kv) k)) hs ++ [(k, v)]) = v.
Proof.
  intros Hk. induction hs as [|[k' x] hs IH]; cbn [List.filter app find_header fst].
  - now rewrite Hk.
  - destruct (same_header k' k) eqn:E; cbn [negb app find_header]; [exact IH|].
    destruct (same_header k' name) eqn:E2; [|exact IH].
    rewrite same_header_sym in Hk.
    now rewrite (same_header_trans _ _ _ E2 Hk) in E.
Qed.

Lemma rawHeader_setRawHeader name v rq :
  isEmpty v = false -> rawHeader name (setRawHeader name v rq) = v.
Proof.
  intros Hv. unfold rawHeader, setRawHeader. cbn [rawHeaders]. rewrite Hv.
  apply find_header_erased, same_header_refl.
Qed.

Lemma find_header_other name k v hs :
  same_header k name = false ->
  find_header name
    (let kept := List.filter (fun kv => negb (same_header (fst kv) k)) hs in
     if isEmpty v then kept else kept ++ [(k, v)])
  = find_header name hs.
Proof.
  intros Hk.
  assert (Hkept : forall tl, find_header name tl = "" ->
            find_header name (List.filter (fun kv => negb (same_header (fst kv) k)) hs ++ tl)
            = find_header name hs).
  { intros tl Htl. induction hs as [|[k' x] hs IH]; simpl; [exact Htl|].
    destruct (same_header k' k) eqn:E1; simpl.
    - destruct (same_header k' name) eqn:E2; [|exact IH].
      rewrite same_header_sym in E1.
      now rewrite (same_header_trans _ _ _ E1 E2) in Hk.
    - destruct (same_header k' name); [reflexivity | exact IH]. }
  cbv zeta. destruct (isEmpty v).
  - rewrite <- (Hkept []) by reflexivity. now rewrite app_nil_r.
  - apply Hkept. simpl. now rewrite Hk.
Qed.

Lemma rawHeader_setRawHeader_other name k v rq :
  same_header k name = false -> rawHeader name (setRawHeader k v rq) = rawHeader name rq.
Proof. intros Hk. unfold rawHeader, setRawHeader. cbn [rawHeaders]. now apply find_header_other. Qed.

(** A custom header whose name is the only one of the mapping that reads
    as [name] reaches the request with its value. *)
Lemma merge_custom_headers_lookup (m : gmap string string) name k v rq :
  m !! k = Some v -> isEmpty v = false -> same_header k name = true ->
  (forall k' v', m !! k' = Some v' -> same_header k' name = true -> k' = k) ->
  rawHeader name (merge_custom_headers m rq) = v.
Proof.
  unfold merge_custom_headers. revert k v.
  induction m as [|i x m Hi Hfold IH] using map_first_key_ind; intros k v Hk Hv Hsame Huniq.
  - rewrite lookup_empty in Hk. discriminate.
  - rewrite map_fold_insert_first_key by assumption.
    destruct (decide (i = k)) as [->|Hne].
    + rewrite lookup_insert_eq in Hk. injection Hk as ->.
      unfold rawHeader, setRawHeader. cbn [rawHeaders]. rewrite Hv.
      now apply find_header_erased.
    + rewrite lookup_insert_ne in Hk by assumption.
      assert (Hi' : same_header i name = false).
      { destruct (same_header i name) eqn:E; [|reflexivity].
        exfalso. apply Hne. apply (Huniq i x); [apply lookup_insert_eq | exact E]. }
      rewrite rawHeader_setRawHeader_other by assumption.
      apply (IH k v Hk Hv Hsame).
      intros k' v' Hk' Hs'. apply (Huniq k' v'); [|exact Hs'].
      rewrite lookup_insert_ne; [exact Hk'|]. intros ->. rewrite Hi in Hk'. discriminate.
Qed.

(** Names the mapping does not hold, in any case, get no header from it. *)
Lemma merge_custom_headers_absent (m : gmap string string) name rq :
  (forall k v, m !! k = Some v -> same_header k name = false) ->
  rawHeader name (merge_custom_headers m rq) = rawHeader name rq.
Proof.
  unfold merge_custom_headers.
  induction m as [|i x m Hi Hfold IH] using map_first_key_ind; intros Hnone.
  - now rewrite map_fold_empty.
  - rewrite map_fold_insert_first_key by assumption.
    rewrite rawHeader_setRawHeader_other by (apply (Hnone i x), lookup_insert_eq).
    apply IH. intros k v Hk. apply (Hnone k v).
    rewrite lookup_insert_ne; [exact Hk|]. intros ->. rewrite Hi in Hk. discriminate.
Qed.

End Headers.

(** C4: [appendRawHeader] with an empty value changes nothing and has no
    effect, so a value registered before under the same name stays: after
    [appendRawHeader("X-Auth","token1")] and [appendRawHeader("X-Auth","")]
    the mapping still gives ["token1"] for ["X-Auth"]. *)
Theorem appendRawHeader_empty_value_is_ignored :
  (forall name d, appendRawHeader name "" d = (tt, d, []))
  /\ (forall d,
        m_customHeaders
          (state_after (appendRawHeader "X-Auth" "token1" ;; appendRawHeader "X-Auth" "") d)
        !! "X-Auth" = Some "token1").
Proof.
  split; [reflexivity|].
  intros d. cbv [state_after appendRawHeader bind modify ret isEmpty negb fst snd].
  cbn [m_customHeaders set_m_customHeaders]. apply lookup_insert_eq.
Qed.

(** C5: a POST dispatch sends one request.  When no content-type header
    is present once the custom headers are merged in, the request carries
    [application/x-www-form-urlencoded]: so it is when the custom header
    mapping holds no name that reads as the content-type header.  When a
    content type was set through the custom header mapping, the request
    carries that value, and its headers are the merged ones, untouched. *)
Theorem post_content_type_default url data timeout p u w d :
  let merged := merge_custom_headers (m_customHeaders d) QNetworkRequest_new in
  exists rq,
    effects_of (manipulateData url PostOperation data timeout p u w) d
    = [Transport PostOperation rq (Some data)]
    /\ request <$> m_activeReply (state_after (manipulateData url PostOperation data timeout p u w) d)
       = Some rq
    /\ (if isEmpty (rawHeader HTTP_HEADERS_CONTENT_TYPE merged)
        then rawHeader HTTP_HEADERS_CONTENT_TYPE rq = "application/x-www-form-urlencoded"
        else rawHeaders rq = rawHeaders merged)
    /\ ((forall k v, m_customHeaders d !! k = Some v ->
                     same_header k HTTP_HEADERS_CONTENT_TYPE = false) ->
        rawHeader HTTP_HEADERS_CONTENT_TYPE rq = "application/x-www-form-urlencoded")
    /\ (forall k v,
          m_customHeaders d !! k = Some v ->
          isEmpty v = false ->
          same_header k HTTP_HEADERS_CONTENT_TYPE = true ->
          (forall k' v', m_customHeaders d !! k' = Some v' ->
                         same_header k' HTTP_HEADERS_CONTENT_TYPE = true -> k' = k) ->
          rawHeader HTTP_HEADERS_CONTENT_TYPE rq = v
          /\ rawHeaders rq = rawHeaders merged).
Proof.
  intros merged. unfold effects_of, state_after.
  rewrite manipulateData_run, run_request_dispatchable by reflexivity.
  fold merged. eexists. split; [reflexivity|]. split; [reflexivity|].
  rewrite bool_decide_eq_true_2 by reflexivity. cbn [andb].
  assert (Hdefault : isEmpty (rawHeader HTTP_HEADERS_CONTENT_TYPE merged) = true ->
            rawHeader HTTP_HEADERS_CONTENT_TYPE
              (setUrl (QUrl.fromString url)
                 (if isEmpty (rawHeader HTTP_HEADERS_CONTENT_TYPE merged)
                  then setRawHeader HTTP_HEADERS_CONTENT_TYPE
                         "application/x-www-form-urlencoded" merged
                  else merged))
            = "application/x-www-form-urlencoded").
  { intros ->. unfold rawHeader. cbn [rawHeaders setUrl]. now apply rawHeader_setRawHeader. }
  split; [|split].
  - destruct (isEmpty (rawHeader HTTP_HEADERS_CONTENT_TYPE merged)) eqn:E.
    + now apply Hdefault.
    + reflexivity.
  - intros Hnone. apply Hdefault. unfold merged.
    now rewrite (merge_custom_headers_absent _ _ _ Hnone).
  - intros k v Hk Hv Hs Hu.
    pose proof (merge_custom_headers_lookup _ HTTP_HEADERS_CONTENT_TYPE k v
                  QNetworkRequest_new Hk Hv Hs Hu) as Hm.
    fold merged in Hm. rewrite Hm, Hv. split; [exact Hm | reflexivity].
Qed.

Section Outcome.

Lemma last_outcome_run_request op rq d :
  last_outcome (snd (fst (run_request op rq d))) = last_outcome d.
Proof. destruct op, d; reflexivity. Qed.

Lemma last_outcome_manipulateData url op data timeout p u w d :
  last_outcome (state_after (manipulateData url op data timeout p u w) d) = last_outcome d.
Proof.
  unfold state_after at 1. rewrite manipulateData_run.
  now rewrite last_outcome_run_request.
Qed.

Lemma last_outcome_progressInternal r t d :
  last_outcome (state_after (progressInternal r t) d) = last_outcome d.
Proof.
  unfold state_after, progressInternal. cbv [bind get timer modify emit ret].
  destruct (0 <? QTimer.interval (m_timer d)); reflexivity.
Qed.

Lemma last_outcome_finished_redirect reply d :
  QUrl.isValid (redirectionUrl reply) = true ->
  last_outcome (state_after (finished reply) d) = last_outcome d.
Proof.
  intros Hv. unfold state_after. rewrite (finished_redirect _ _ Hv). cbv zeta.
  set (d1 := set_m_activeReply None _).
  change (last_outcome d) with (last_outcome d1).
  rewrite <- (last_outcome_run_request (operation reply) (follow_up reply) d1).
  now destruct (run_request _ _ _) as [[[] d2] es].
Qed.

Lemma last_outcome_cancel d : last_outcome (state_after cancel d) = last_outcome d.
Proof. unfold state_after, cancel. cbv [bind get]. destruct (m_activeReply d); reflexivity. Qed.

Lemma last_outcome_appendRawHeader name value d :
  last_outcome (state_after (appendRawHeader name value) d) = last_outcome d.
Proof. unfold state_after, appendRawHeader. destruct (isEmpty value); reflexivity. Qed.

Lemma last_outcome_timer_tick ms d :
  last_outcome (state_after (timer_tick ms) d) = last_outcome d.
Proof.
  unfold state_after, timer_tick. cbv [bind get modify].
  destruct (QTimer.elapse ms (m_timer d)) as [[] tm']; cbn [fst snd].
  - unfold cancel. cbv [bind get]. cbn [m_activeReply set_m_timer].
    destruct (m_activeReply d); reflexivity.
  - reflexivity.
Qed.

Lemma effects_finished_final reply d :
  QUrl.isValid (redirectionUrl reply) = false ->
  effects_of (finished reply) d
  = [DeleteLater; Completed (netError (response reply)) (body (response reply))].
Proof. intros Hv. unfold effects_of. now rewrite finished_final. Qed.

End Outcome.

(** C8: the last outcome (body, error code, content type) is the same
    after a dispatch, after a progress tick and after a redirect
    continuation as before it; more generally any event whose handling
    emits no [completed] signal leaves it as it was. *)
Theorem last_outcome_retained d :
  (forall url op data timeout p u w,
      last_outcome (state_after (manipulateData url op data timeout p u w) d) = last_outcome d)
  /\ (forall r t, last_outcome (state_after (progressInternal r t) d) = last_outcome d)
  /\ (forall reply, QUrl.isValid (redirectionUrl reply) = true ->
        last_outcome (state_after (finished reply) d) = last_outcome d)
  /\ (forall ev, completions (effects_of (handle ev) d) = 0%nat ->
        last_outcome (state_after (handle ev) d) = last_outcome d).
Proof.
  split; [|split; [|split]].
  - intros. apply last_outcome_manipulateData.
  - intros. apply last_outcome_progressInternal.
  - intros. now apply last_outcome_finished_redirect.
  - intros ev Hc. destruct ev; cbn [handle] in *.
    + apply last_outcome_manipulateData.
    + apply last_outcome_manipulateData.
    + apply last_outcome_manipulateData.
    + apply last_outcome_cancel.
    + apply last_outcome_appendRawHeader.
    + unfold state_after. cbv [bind get]. destruct (m_activeReply d).
      * pose proof (last_outcome_progressInternal bytes_received bytes_total d) as H.
        unfold state_after in H.
        now destruct (progressInternal _ _ d) as [[[] d2] es].
      * reflexivity.
    + unfold state_after, effects_of in *. cbv [bind get] in *.
      destruct (m_activeReply d) as [reply|]; [|reflexivity].
      destruct (QUrl.isValid (redirectionUrl (finish resp reply))) eqn:Hv.
      * pose proof (last_outcome_finished_redirect _ d Hv) as H. unfold state_after in H.
        now destruct (finished _ d) as [[[] d2] es].
      * rewrite (finished_final _ _ Hv) in Hc. discriminate Hc.
    + apply last_outcome_timer_tick.
Qed.

(** C1 (the code departs from it at timeout 0): a request dispatched with
    timeout 0 leaves the timer running with nothing left to wait, because
    [runGetRequest] starts it without looking at the interval; as soon as
    the event loop runs, before any progress tick, the timer fires and
    [cancel] aborts the active reply. *)
Theorem zero_timeout_timer_fires url p u w d :
  let d1 := state_after (downloadFile url 0 p u w) d in
  QTimer.remaining (m_timer d1) = Some 0
  /\ effects_of (handle (Time_passes 0)) d1 = [Abort]
  /\ aborted <$> m_activeReply (state_after (handle (Time_passes 0)) d1) = Some true.
Proof.
  unfold downloadFile, state_after, effects_of.
  rewrite manipulateData_run, run_request_dispatchable by reflexivity.
  cbn [fst snd m_timer set_m_timer set_m_activeReply m_activeReply].
  unfold QTimer.setInterval.
  destruct (QTimer.isActive (m_timer d)); repeat split; reflexivity.
Qed.

Lemma timer_after_run_request op rq d :
  m_timer (snd (fst (run_request op rq d)))
  = if dispatchable op then QTimer.start (m_timer d) else m_timer d.
Proof. destruct op, d; reflexivity. Qed.

(** With a negative timeout the timer is never armed: neither by the
    dispatch nor by a progress tick. *)
Lemma negative_timeout_timer_idle url op data timeout p u w d :
  timeout < 0 ->
  QTimer.isActive (m_timer d) = false ->
  let d1 := state_after (manipulateData url op data timeout p u w) d in
  QTimer.remaining (m_timer d1) = None
  /\ forall r t, QTimer.remaining (m_timer (state_after (progressInternal r t) d1)) = None.
Proof.
  intros Ht Hidle d1.
  assert (Hneg : (timeout <? 0) = true) by now apply Z.ltb_lt.
  assert (Hpos : (0 <? timeout) = false) by (apply Z.ltb_ge; lia).
  assert (Htm : m_timer d1
                = QTimer.mkTimer timeout (QTimer.singleShot (m_timer d)) None).
  { subst d1. unfold state_after. rewrite manipulateData_run, timer_after_run_request.
    cbn [m_timer]. unfold QTimer.setInterval. rewrite Hidle.
    unfold QTimer.isActive in Hidle.
    destruct (QTimer.remaining (m_timer d)) eqn:Hr; [discriminate Hidle|].
    destruct (dispatchable op); [|reflexivity].
    unfold QTimer.start. cbn [QTimer.interval QTimer.singleShot]. now rewrite Hneg. }
  split; [now rewrite Htm|].
  intros r t. unfold state_after, progressInternal. cbv [bind get timer modify emit ret].
  cbn [fst snd]. rewrite Htm. cbn [QTimer.interval]. rewrite Hpos. cbn [fst snd].
  now rewrite Htm.
Qed.

Section Redirect.

Lemma finished_redirect_dispatchable reply d :
  QUrl.isValid (redirectionUrl reply) = true ->
  dispatchable (operation reply) = true ->
  finished reply d
  = (tt,
     mkDownloader
       (Some (issued_reply d (operation reply) (follow_up reply)))
       (QTimer.start (QTimer.stop (m_timer d)))
       (m_customHeaders d) (m_inputData d) (m_targetProtected d) (m_targetUsername d)
       (m_targetPassword d) (m_lastOutputData d) (m_lastOutputError d) (m_lastContentType d),
     [DeleteLater;
      Transport (operation reply) (follow_up reply) (payload (operation reply) (m_inputData d))]).
Proof.
  intros Hv Hop. rewrite (finished_redirect _ _ Hv). cbv zeta.
  rewrite (run_request_dispatchable _ _ _ Hop). reflexivity.
Qed.

Lemma issued_reply_fields d op rq :
  operation (issued_reply d op rq) = op
  /\ request (issued_reply d op rq) = rq
  /\ sentData (issued_reply d op rq) = payload op (m_inputData d)
  /\ properties (issued_reply d op rq) !! "protected" = Some (PBool (m_targetProtected d))
  /\ properties (issued_reply d op rq) !! "username" = Some (PString (m_targetUsername d))
  /\ properties (issued_reply d op rq) !! "password" = Some (PString (m_targetPassword d))
  /\ aborted (issued_reply d op rq) = false.
Proof.
  unfold issued_reply, setProperty, new_reply.
  cbn [operation request sentData properties aborted].
  repeat split; by simplify_map_eq.
Qed.

Lemma isValid_absolute_path loc :
  absolute_path loc = true ->
  QUrl.isValid (QUrl.fromString loc) = true /\ QUrl.host (QUrl.fromString loc) = "".
Proof.
  intros Ha. rewrite (fromString_absolute_path _ Ha).
  destruct loc as [|x r]; [discriminate Ha|].
  assert (x = "/"%char) as ->.
  { destruct (Ascii.eqb_spec x "/") as [->|Hx]; [reflexivity|].
    exfalso. destruct x as [[] [] [] [] [] [] [] []]; try discriminate Ha. now apply Hx. }
  destruct (hier_of_cons r) as (-> & _ & _).
  split; reflexivity.
Qed.

Lemma redirect_url_absolute_path prev loc :
  absolute_path loc = true ->
  plain_scheme (QUrl.scheme prev) = true ->
  plain_host (QUrl.host prev) = true ->
  redirect_url prev (QUrl.fromString loc)
  = QUrl.mkUrl (QUrl.scheme prev) (Some (QUrl.mkAuthority None (QUrl.host prev) None))
      (QUrl.path (QUrl.fromString loc)) (QUrl.query (QUrl.fromString loc))
      (QUrl.fragment (QUrl.fromString loc)) false.
Proof.
  intros Ha Hs Hh. unfold redirect_url.
  destruct (isValid_absolute_path _ Ha) as [_ ->]. cbn [isEmpty].
  rewrite (toString_absolute_path _ Ha).
  rewrite fromString_rebuilt; try assumption.
  - now rewrite (fromString_absolute_path _ Ha).
  - destruct loc as [|x [|y r]]; try discriminate Ha;
      destruct x as [[] [] [] [] [] [] [] []]; try discriminate Ha; reflexivity.
Qed.

End Redirect.

(** C9: when the reply of a finished operation carries a valid redirection
    target whose host is not empty, the one request sent next has exactly
    that target as its URL (and the headers of the request before it). *)
Theorem redirect_with_host_is_verbatim reply d :
  QUrl.isValid (redirectionUrl reply) = true ->
  isEmpty (QUrl.host (redirectionUrl reply)) = false ->
  dispatchable (operation reply) = true ->
  exists rq data,
    effects_of (finished reply) d = [DeleteLater; Transport (operation reply) rq data]
    /\ request <$> m_activeReply (state_after (finished reply) d) = Some rq
    /\ url rq = redirectionUrl reply
    /\ rawHeaders rq = rawHeaders (request reply).
Proof.
  intros Hv Hh Hop. unfold effects_of, state_after.
  rewrite (finished_redirect_dispatchable _ _ Hv Hop). cbn [fst snd m_activeReply].
  eexists _, _. split; [reflexivity|]. split; [reflexivity|].
  unfold follow_up, redirect_url. rewrite Hh. split; reflexivity.
Qed.

(** C3: a redirect continuation sends one request, with the operation of
    the reply that was redirected; POST and PUT are given the stored body
    again; the new reply is tagged with the stored protection flag, user
    name and password; and the stored body and credentials stay as they
    were. *)
Theorem redirect_keeps_method_body_credentials reply d :
  QUrl.isValid (redirectionUrl reply) = true ->
  dispatchable (operation reply) = true ->
  let d' := state_after (finished reply) d in
  exists r',
    m_activeReply d' = Some r'
    /\ effects_of (finished reply) d
       = [DeleteLater; Transport (operation reply) (request r') (sentData r')]
    /\ operation r' = operation reply
    /\ sentData r' = payload (operation reply) (m_inputData d)
    /\ properties r' !! "protected" = Some (PBool (m_targetProtected d))
    /\ properties r' !! "username" = Some (PString (m_targetUsername d))
    /\ properties r' !! "password" = Some (PString (m_targetPassword d))
    /\ rawHeaders (request r') = rawHeaders (request reply)
    /\ (m_inputData d', m_targetProtected d', m_targetUsername d', m_targetPassword d')
       = (m_inputData d, m_targetProtected d, m_targetUsername d, m_targetPassword d).
Proof.
  intros Hv Hop d'. subst d'. unfold effects_of, state_after.
  rewrite (finished_redirect_dispatchable _ _ Hv Hop). cbn [fst snd m_activeReply].
  destruct (issued_reply_fields d (operation reply) (follow_up reply))
    as (H1 & H2 & H3 & H4 & H5 & H6 & _).
  eexists. split; [reflexivity|]. rewrite H1, H2, H3.
  repeat split; assumption.
Qed.

Section Chain.

Lemma completions_app es1 es2 :
  completions (es1 ++ es2) = (completions es1 + completions es2)%nat.
Proof. unfold completions. now rewrite List.filter_app, List.length_app. Qed.

Lemma run_cons ev evs d :
  run (ev :: evs) d
  = (let '(_, d1, e1) := handle ev d in
     let '(_, d2, e2) := run evs d1 in
     (tt, d2, e1 ++ e2)).
Proof.
  cbn [run]. unfold bind.
  destruct (handle ev d) as [[[] d1] e1]. now destruct (run evs d1) as [[[] d2] e2].
Qed.

Lemma run_app evs1 evs2 d :
  run (evs1 ++ evs2) d
  = (let '(_, d1, e1) := run evs1 d in
     let '(_, d2, e2) := run evs2 d1 in
     (tt, d2, e1 ++ e2)).
Proof.
  revert d. induction evs1 as [|ev evs1 IH]; intros d.
  - cbn [app run ret]. now destruct (run evs2 d) as [[[] d2] e2].
  - change ((ev :: evs1) ++ evs2) with (ev :: (evs1 ++ evs2)).
    rewrite !run_cons. destruct (handle ev d) as [[[] d1] e1]. rewrite IH.
    destruct (run evs1 d1) as [[[] d2] e2].
    destruct (run evs2 d2) as [[[] d3] e3]. now rewrite app_assoc.
Qed.

Lemma redirectionUrl_finish resp reply :
  QUrl.isValid (redirectionUrl (finish resp reply)) = is_redirect resp.
Proof.
  unfold redirectionUrl, finish, is_redirect. cbn [response].
  now destruct (aborted reply).
Qed.

Lemma cancel_in_flight d :
  in_flight d ->
  in_flight (state_after cancel d) /\ effects_of cancel d = [Abort].
Proof.
  intros (r & Hr & Hop). unfold state_after, effects_of, cancel.
  cbv [bind get emit activeReply modify]. cbn [fst snd]. rewrite Hr. cbn [fst snd app].
  split; [|reflexivity]. exists (abort r). rewrite Hr. now split.
Qed.

Lemma chain_event_step ev d :
  chain_event ev = true -> in_flight d ->
  in_flight (state_after (handle ev) d) /\ completions (effects_of (handle ev) d) = 0%nat.
Proof.
  intros Hev Hd. destruct ev; try discriminate Hev; cbn [handle].
  - destruct (cancel_in_flight d Hd) as [H1 H2]. now rewrite H2.
  - destruct Hd as (r & Hr & Hop). unfold state_after, effects_of, progressInternal.
    cbv [bind get timer modify emit ret]. cbn [fst snd]. rewrite Hr.
    destruct (0 <? QTimer.interval (m_timer d)); cbn [fst snd app]; (split; [|reflexivity]);
      exists r; now split.
  - destruct Hd as (r & Hr & Hop). cbn [chain_event] in Hev.
    unfold state_after, effects_of. cbv [bind get]. cbn [fst snd]. rewrite Hr.
    assert (Hv : QUrl.isValid (redirectionUrl (finish resp r)) = true)
      by now rewrite redirectionUrl_finish.
    assert (Hop' : dispatchable (operation (finish resp r)) = true) by exact Hop.
    rewrite (finished_redirect_dispatchable _ _ Hv Hop'). cbn [fst snd app].
    split; [|reflexivity]. eexists. split; [reflexivity|].
    now destruct (issued_reply_fields d (operation (finish resp r)) (follow_up (finish resp r)))
      as (-> & _).
  - unfold state_after, effects_of, timer_tick. cbv [bind get modify]. cbn [fst snd].
    destruct (QTimer.elapse ms (m_timer d)) as [[] tm'].
    + assert (Hd' : in_flight (set_m_timer tm' d)) by exact Hd.
      destruct (cancel_in_flight _ Hd') as [H1 H2].
      unfold state_after, effects_of in H1, H2.
      destruct (cancel (set_m_timer tm' d)) as [[[] d2] es]. cbn [fst snd] in *.
      now rewrite H2.
    + cbn [ret fst snd app]. split; [exact Hd | reflexivity].
Qed.

Lemma chain_run mid d :
  forallb chain_event mid = true -> in_flight d ->
  in_flight (state_after (run mid) d) /\ completions (effects_of (run mid) d) = 0%nat.
Proof.
  revert d. induction mid as [|ev mid IH]; intros d Hmid Hd.
  - split; [exact Hd | reflexivity].
  - cbn [forallb] in Hmid. apply andb_true_iff in Hmid as [Hev Hmid].
    destruct (chain_event_step ev d Hev Hd) as [H1 H2].
    unfold state_after, effects_of in *. rewrite run_cons.
    destruct (handle ev d) as [[[] d1] e1]. cbn [fst snd] in *.
    destruct (IH d1 Hmid H1) as [H3 H4].
    destruct (run mid d1) as [[[] d2] e2]. cbn [fst snd] in *.
    split; [exact H3|]. now rewrite completions_app, H2, H4.
Qed.

Lemma dispatch_in_flight url op data timeout p u w d :
  dispatchable op = true ->
  in_flight (state_after (manipulateData url op data timeout p u w) d)
  /\ completions (effects_of (manipulateData url op data timeout p u w) d) = 0%nat.
Proof.
  intros Hop. unfold state_after, effects_of.
  rewrite manipulateData_run, (run_request_dispatchable _ _ _ Hop). cbn [fst snd].
  split; [|reflexivity]. eexists. split; [reflexivity|].
  match goal with |- context [issued_reply ?d ?o ?r] =>
    now destruct (issued_reply_fields d o r) as (-> & _) end.
Qed.

End Chain.

(** C6: a redirect continuation emits no [completed]; the branch of
    [finished] without redirect emits it exactly once, last, with the error
    code and the body it has just stored, and the three accessors then
    return the reply's body, content type and error code.  Over a whole
    chain (a dispatch, then progress ticks, timer activity, cancellations
    and redirected replies in any number, then a reply without redirect)
    exactly one [completed] is emitted, as the last effect.  The signal
    goes out after the three values are stored: a slot connected to
    [completed] that calls the three accessors reads the body, the error
    code and the content type of the reply that has just finished; on a
    redirect no slot runs. *)
Theorem one_completed_per_chain d :
  (forall reply,
      if QUrl.isValid (redirectionUrl reply)
      then completions (effects_of (finished reply) d) = 0%nat
      else effects_of (finished reply) d
           = [DeleteLater; Completed (netError (response reply)) (body (response reply))]
           /\ lastOutputData (state_after (finished reply) d) = body (response reply)
           /\ lastContentType (state_after (finished reply) d) = contentType (response reply)
           /\ lastOutputError (state_after (finished reply) d) = netError (response reply))
  /\ (forall url op data timeout p u w mid last,
        dispatchable op = true ->
        forallb chain_event mid = true ->
        is_redirect last = false ->
        exists es status,
          effects_of (run (Call_manipulateData url op data timeout p u w
                           :: mid ++ [Reply_finished last])) d
          = es ++ [Completed status (body last)]
          /\ completions es = 0%nat
          /\ last_outcome (state_after (run (Call_manipulateData url op data timeout p u w
                                             :: mid ++ [Reply_finished last])) d)
             = (body last, status, contentType last))
  /\ (forall reply,
        result_of (finished_observed last_outcome reply) d
        = if QUrl.isValid (redirectionUrl reply)
          then None
          else Some (body (response reply), netError (response reply),
                     contentType (response reply))).
Proof.
  split; [|split; [|intros reply; rewrite finished_observed_result;
                     destruct (QUrl.isValid (redirectionUrl reply)); reflexivity]].
  - intros reply. destruct (QUrl.isValid (redirectionUrl reply)) eqn:Hv.
    + unfold effects_of. rewrite (finished_redirect _ _ Hv). cbv zeta.
      destruct (operation reply); reflexivity.
    + unfold effects_of, state_after. rewrite (finished_final _ _ Hv). repeat split.
  - intros url op data timeout p u w mid last Hop Hmid Hlast.
    destruct (dispatch_in_flight url op data timeout p u w d Hop) as [H1 H2].
    unfold effects_of, state_after in *. rewrite run_cons. cbn [handle].
    destruct (manipulateData url op data timeout p u w d) as [[[] d1] e1]. cbn [fst snd] in *.
    destruct (chain_run mid d1 Hmid H1) as [H3 H4].
    unfold effects_of, state_after in *. rewrite run_app.
    destruct (run mid d1) as [[[] d2] e2]. cbn [fst snd] in *.
    destruct H3 as (r & Hr & _).
    rewrite run_cons. cbn [handle run ret]. cbv [bind get]. rewrite Hr.
    assert (Hv : QUrl.isValid (redirectionUrl (finish last r)) = false)
      by now rewrite redirectionUrl_finish.
    rewrite (finished_final _ _ Hv). cbn [fst snd app].
    exists (e1 ++ e2 ++ [DeleteLater]), (netError (response (finish last r))).
    split; [|split].
    + assert (Hb : body (response (finish last r)) = body last)
        by (unfold finish; cbn [response]; now destruct (aborted r)).
      rewrite Hb, <- !app_assoc. reflexivity.
    + rewrite !completions_app, H2, H4. reflexivity.
    + unfold last_outcome, lastOutputData, lastOutputError, lastContentType.
      cbn [m_lastOutputData m_lastOutputError m_lastContentType].
      unfold finish; cbn [response]. now destruct (aborted r).
Qed.

Lemma stop_elapse ms tm : QTimer.stop (snd (QTimer.elapse ms tm)) = QTimer.stop tm.
Proof.
  unfold QTimer.elapse. destruct (QTimer.remaining tm) as [r|]; [|reflexivity].
  destruct (r <=? ms); [|reflexivity]. now destruct (QTimer.singleShot tm).
Qed.

(** [finished] stops the timer first: what the timer was doing is forgotten. *)
Lemma finished_timer_stop reply a tm tm' d :
  QTimer.stop tm = QTimer.stop tm' ->
  finished reply (set_m_activeReply a (set_m_timer tm d))
  = finished reply (set_m_activeReply a (set_m_timer tm' d)).
Proof.
  intros H. destruct (QUrl.isValid (redirectionUrl reply)) eqn:Hv.
  - rewrite !(finished_redirect _ _ Hv). cbn [set_m_activeReply set_m_timer m_timer]. now rewrite H.
  - rewrite !(finished_final _ _ Hv). cbn [set_m_activeReply set_m_timer m_timer]. now rewrite H.
Qed.

(** C7: when the timer times out while a reply is active, all that happens
    is what [cancel] does: the active reply is aborted, nothing is stored
    and nothing is signalled.  The abort error then arrives through
    [finished] like any other outcome, and from there on the run that timed
    out and the run in which [cancel] was called from outside are the same,
    in the state they leave and in the effects they have. *)
Theorem timeout_is_cancel d reply ms resp :
  m_activeReply d = Some reply ->
  fst (QTimer.elapse ms (m_timer d)) = true ->
  effects_of (handle (Time_passes ms)) d = [Abort]
  /\ effects_of (handle Call_cancel) d = [Abort]
  /\ m_activeReply (state_after (handle (Time_passes ms)) d) = Some (abort reply)
  /\ m_activeReply (state_after (handle Call_cancel) d) = Some (abort reply)
  /\ last_outcome (state_after (handle (Time_passes ms)) d) = last_outcome d
  /\ run [Time_passes ms; Reply_finished resp] d = run [Call_cancel; Reply_finished resp] d
  /\ (is_redirect resp = false ->
      effects_of (run [Time_passes ms; Reply_finished resp]) d
      = [Abort; DeleteLater; Completed OperationCanceledError (body resp)]).
Proof.
  intros Hr Hfire.
  assert (Htick : handle (Time_passes ms) d
                  = (tt, set_m_activeReply (Some (abort reply))
                           (set_m_timer (snd (QTimer.elapse ms (m_timer d))) d), [Abort])).
  { cbn [handle]. unfold timer_tick, cancel. cbv [bind get modify emit activeReply].
    destruct (QTimer.elapse ms (m_timer d)) as [fired tm']. cbn [fst snd] in *. subst fired.
    destruct d. cbn [m_activeReply set_m_timer] in *. subst. reflexivity. }
  assert (Hcancel : handle Call_cancel d
                    = (tt, set_m_activeReply (Some (abort reply)) d, [Abort])).
  { cbn [handle]. unfold cancel. cbv [bind get modify emit activeReply].
    destruct d. cbn [m_activeReply] in *. subst. reflexivity. }
  assert (Hsame : run [Time_passes ms; Reply_finished resp] d
                  = run [Call_cancel; Reply_finished resp] d).
  { rewrite !run_cons, Htick, Hcancel. rewrite !run_cons. cbn [handle run ret].
    cbv [bind get]. cbn [m_activeReply set_m_activeReply].
    rewrite (finished_timer_stop _ _ _ (m_timer d)) by apply stop_elapse.
    destruct d; reflexivity. }
  unfold effects_of, state_after. rewrite Htick, Hcancel. cbn [fst snd].
  repeat split; try reflexivity; try exact Hsame.
  intros Hlast. rewrite Hsame, run_cons, Hcancel, run_cons. cbn [handle run ret].
  cbv [bind get]. cbn [m_activeReply set_m_activeReply].
  rewrite finished_final by now rewrite redirectionUrl_finish.
  reflexivity.
Qed.

(** Where the code keeps scheme and host on a redirect without host: when
    the redirection target is an absolute path (a text that starts with one
    slash), and the scheme and host of the request that was redirected are
    plain, the one request sent next has that scheme and that host and the
    target's path, query and fragment. *)
Theorem redirect_to_absolute_path reply loc d :
  redirectionTarget (response reply) = Some (QUrl.fromString loc) ->
  absolute_path loc = true ->
  dispatchable (operation reply) = true ->
  plain_scheme (QUrl.scheme (url (request reply))) = true ->
  plain_host (QUrl.host (url (request reply))) = true ->
  QUrl.isValid (redirectionUrl reply) = true
  /\ QUrl.host (redirectionUrl reply) = ""
  /\ exists rq data,
       effects_of (finished reply) d = [DeleteLater; Transport (operation reply) rq data]
       /\ QUrl.scheme (url rq) = QUrl.scheme (url (request reply))
       /\ QUrl.host (url rq) = QUrl.host (url (request reply))
       /\ QUrl.path (url rq) = QUrl.path (redirectionUrl reply)
       /\ QUrl.query (url rq) = QUrl.query (redirectionUrl reply)
       /\ QUrl.fragment (url rq) = QUrl.fragment (redirectionUrl reply).
Proof.
  intros Ht Ha Hop Hs Hh.
  assert (Hr : redirectionUrl reply = QUrl.fromString loc)
    by (unfold redirectionUrl; now rewrite Ht).
  destruct (isValid_absolute_path _ Ha) as [Hv He].
  rewrite Hr. split; [exact Hv|]. split; [exact He|].
  unfold effects_of. rewrite finished_redirect_dispatchable by (rewrite ?Hr; assumption).
  cbn [snd]. eexists _, _. split; [reflexivity|].
  unfold follow_up. cbn [url setUrl]. rewrite Hr.
  rewrite (redirect_url_absolute_path _ _ Ha Hs Hh). repeat split.
Qed.

(** C10: with a redirection target whose host is empty, the URL of the
    request sent next is read from the text made of the scheme of the
    previous URL, [://], its host, and the target as text; nothing else of
    the previous URL enters it.  For an absolute-path target and a plain
    scheme and host the result has neither user info nor port, whatever the
    previous URL had. *)
Theorem redirect_drops_port_and_userinfo reply d :
  QUrl.isValid (redirectionUrl reply) = true ->
  isEmpty (QUrl.host (redirectionUrl reply)) = true ->
  dispatchable (operation reply) = true ->
  exists rq data,
    effects_of (finished reply) d = [DeleteLater; Transport (operation reply) rq data]
    /\ url rq = QUrl.fromString (QUrl.scheme (url (request reply)) +:+ "://"
                                 +:+ QUrl.host (url (request reply))
                                 +:+ QUrl.toString (redirectionUrl reply))
    /\ (forall loc,
          redirectionUrl reply = QUrl.fromString loc ->
          absolute_path loc = true ->
          plain_scheme (QUrl.scheme (url (request reply))) = true ->
          plain_host (QUrl.host (url (request reply))) = true ->
          QUrl.authority (url rq)
          = Some (QUrl.mkAuthority None (QUrl.host (url (request reply))) None)).
Proof.
  intros Hv He Hop. unfold effects_of.
  rewrite (finished_redirect_dispatchable _ _ Hv Hop). cbn [snd].
  eexists _, _. split; [reflexivity|].
  unfold follow_up. cbn [url setUrl]. split.
  - unfold redirect_url. now rewrite He.
  - intros loc Hr Ha Hs Hh. rewrite Hr.
    now rewrite (redirect_url_absolute_path _ _ Ha Hs Hh).
Qed.

(** The examples of the specification, run from a fresh Downloader. *)
Example redirect_example_new :
  exists rq,
    effects_of (handle (Reply_finished (mkResponse (Some (QUrl.fromString "/new")) "" None NoError)))
      (state_after (downloadFile "http://example.com/old" 5000 false "" "") sample_downloader)
    = [DeleteLater; Transport GetOperation rq None]
    /\ url rq = QUrl.fromString "http://example.com/new"
    /\ QUrl.toString (url rq) = "http://example.com/new".
Proof. eexists. repeat split. Qed.

Example redirect_example_port :
  exists rq,
    effects_of (handle (Reply_finished (mkResponse (Some (QUrl.fromString "/new")) "" None NoError)))
      (state_after (downloadFile "http://bob@example.com:8080/old" 5000 false "" "") sample_downloader)
    = [DeleteLater; Transport GetOperation rq None]
    /\ QUrl.toString (url rq) = "http://example.com/new".
Proof. eexists. repeat split. Qed.

(** C2 (the code departs from it for relative targets): [finished] means to
    keep the scheme and host of the request that was redirected, and puts
    the text of the target right behind the host.  With a GET of
    [http://example.com/old] under way, a redirect to [new], a valid target
    without host, is followed by a request to the host [example.comnew]
    with an empty path, and a redirect to [.evil.org/x] by a request to the
    host [example.com.evil.org]: neither the host of the request before nor
    the path of the target is kept. *)
Theorem redirect_relative_target_changes_host :
  let redirect target := Reply_finished (mkResponse (Some (QUrl.fromString target)) "" None NoError) in
  (url <$> (request <$> m_activeReply sample_active)
   = Some (QUrl.fromString "http://example.com/old"))
  /\ (QUrl.isValid (QUrl.fromString "new") = true
      /\ QUrl.host (QUrl.fromString "new") = ""
      /\ QUrl.path (QUrl.fromString "new") = "new")
  /\ (exists rq,
        effects_of (handle (redirect "new")) sample_active
        = [DeleteLater; Transport GetOperation rq None]
        /\ QUrl.toString (url rq) = "http://example.comnew"
        /\ QUrl.host (url rq) = "example.comnew"
        /\ QUrl.path (url rq) = "")
  /\ (QUrl.isValid (QUrl.fromString ".evil.org/x") = true
      /\ QUrl.host (QUrl.fromString ".evil.org/x") = "")
  /\ (exists rq,
        effects_of (handle (redirect ".evil.org/x")) sample_active
        = [DeleteLater; Transport GetOperation rq None]
        /\ QUrl.toString (url rq) = "http://example.com.evil.org/x"
        /\ QUrl.host (url rq) = "example.com.evil.org").
Proof.
  cbv zeta. split; [vm_compute; reflexivity|].
  split; [repeat split|]. split; [eexists; repeat split; vm_compute; reflexivity|].
  split; [repeat split|]. eexists; repeat split; vm_compute; reflexivity.
Qed.

(** The replies a Downloader holds are always of an operation it
    dispatches: the hypothesis [dispatchable (operation reply) = true] of
    the theorems on redirects holds of every reply [finished] can see. *)

Section Reachable.

Lemma activeReply_after_run_request op rq d :
  m_activeReply (snd (fst (run_request op rq d)))
  = if dispatchable op then Some (issued_reply d op rq) else m_activeReply d.
Proof. destruct op, d; reflexivity. Qed.

Lemma handle_keeps_replies_dispatchable ev d :
  replies_dispatchable d -> replies_dispatchable (state_after (handle ev) d).
Proof.
  intros Hd.
  assert (Hdispatch : forall url op data timeout p u w,
             replies_dispatchable (state_after (manipulateData url op data timeout p u w) d)).
  { intros url op data timeout p u w r. unfold state_after.
    rewrite manipulateData_run, activeReply_after_run_request.
    destruct (dispatchable op) eqn:Hop.
    - intros [= <-]. exact Hop.
    - apply Hd. }
  assert (Hcancel : forall d0, replies_dispatchable d0 ->
             replies_dispatchable (state_after cancel d0)).
  { intros d0 H0 r. unfold state_after, cancel. cbv [bind get emit activeReply modify].
    destruct (m_activeReply d0) as [r0|] eqn:E; cbn [fst snd ret].
    - destruct d0. cbn [m_activeReply set_m_activeReply] in *. subst.
      cbn [fmap option_fmap option_map]. intros [= <-]. exact (H0 r0 eq_refl).
    - rewrite E. discriminate. }
  destruct ev; cbn [handle].
  - apply Hdispatch.
  - apply Hdispatch.
  - apply Hdispatch.
  - now apply Hcancel.
  - intros r. unfold state_after, appendRawHeader.
    destruct (isEmpty value); cbn [negb modify ret fst snd]; apply Hd.
  - intros r. unfold state_after, progressInternal. cbv [bind get timer modify emit ret].
    destruct (m_activeReply d) eqn:E; cbn [fst snd]; [|now rewrite E].
    destruct (0 <? QTimer.interval (m_timer d)); cbn [fst snd]; apply Hd.
  - intros r. unfold state_after. cbv [bind get].
    destruct (m_activeReply d) as [r0|] eqn:E; cbn [fst snd ret]; [|now rewrite E].
    destruct (QUrl.isValid (redirectionUrl (finish resp r0))) eqn:Hv.
    + rewrite finished_redirect_dispatchable; [|exact Hv | exact (Hd r0 E)].
      cbn [fst snd m_activeReply]. intros [= <-]. exact (Hd r0 E).
    + rewrite (finished_final _ _ Hv). cbn [fst snd m_activeReply]. discriminate.
  - unfold state_after, timer_tick. cbv [bind get modify].
    destruct (QTimer.elapse ms (m_timer d)) as [[] tm']; cbn [fst snd].
    + assert (H0 : replies_dispatchable (set_m_timer tm' d)) by exact Hd.
      specialize (Hcancel _ H0). unfold state_after in Hcancel.
      now destruct (cancel (set_m_timer tm' d)) as [[[] d2] es].
    + exact Hd.
Qed.

Lemma run_keeps_replies_dispatchable evs d :
  replies_dispatchable d -> replies_dispatchable (state_after (run evs) d).
Proof.
  revert d. induction evs as [|ev evs IH]; intros d Hd; [exact Hd|].
  pose proof (handle_keeps_replies_dispatchable ev d Hd) as H1.
  unfold state_after in *. rewrite run_cons.
  destruct (handle ev d) as [[[] d1] e1]. cbn [fst snd] in *.
  specialize (IH d1 H1). now destruct (run evs d1) as [[[] d2] e2].
Qed.

Lemma fresh_replies_dispatchable t : replies_dispatchable (Downloader_ctor t).
Proof. intros r. discriminate. Qed.

End Reachable.

Section Extras.

(** What a dispatch leaves behind. *)
Lemma manipulateData_dispatchable url op data timeout p u w d :
  dispatchable op = true ->
  exists rq,
    manipulateData url op data timeout p u w d
    = (tt,
       mkDownloader
         (Some (mkReply op rq (payload op data)
                  (<["password" := PString w]>
                     (<["username" := PString u]> (<["protected" := PBool p]> ∅)))
                  false no_response))
         (QTimer.start (QTimer.setInterval timeout (m_timer d)))
         (m_customHeaders d) data p u w
         (m_lastOutputData d) (m_lastOutputError d) (m_lastContentType d),
       [Transport op rq (payload op data)])
    /\ Net.url rq = QUrl.fromString url.
Proof.
  intros Hop. rewrite manipulateData_run, (run_request_dispatchable _ _ _ Hop).
  eexists. split; reflexivity.
Qed.

(** From the dispatch to the follow-up of a redirect: the operation, the
    body and the credentials given to [manipulateData] are those of the
    request that follows the redirect. *)
Lemma dispatch_then_redirect url op data timeout p u w resp d :
  dispatchable op = true ->
  is_redirect resp = true ->
  exists r',
    m_activeReply (state_after (run [Call_manipulateData url op data timeout p u w;
                                     Reply_finished resp]) d) = Some r'
    /\ operation r' = op
    /\ sentData r' = payload op data
    /\ properties r' !! "protected" = Some (PBool p)
    /\ properties r' !! "username" = Some (PString u)
    /\ properties r' !! "password" = Some (PString w).
Proof.
  intros Hop Hred. unfold state_after. rewrite !run_cons. cbn [handle run ret].
  destruct (manipulateData_dispatchable url op data timeout p u w d Hop) as (rq & -> & _).
  cbv [bind get]. cbn [m_activeReply].
  rewrite finished_redirect_dispatchable;
    [| now rewrite redirectionUrl_finish | exact Hop].
  cbn [fst snd m_activeReply].
  eexists. split; [reflexivity|].
  match goal with |- context [issued_reply ?d ?o ?r] =>
    destruct (issued_reply_fields d o r) as (H1 & _ & H3 & H4 & H5 & H6 & _) end.
  rewrite H1, H3, H4, H5, H6. repeat split.
Qed.

(** A content type registered with [appendRawHeader] goes out with a POST. *)
Lemma post_keeps_custom_content_type url data timeout p u w k v d :
  m_customHeaders d !! k = Some v ->
  isEmpty v = false ->
  same_header k HTTP_HEADERS_CONTENT_TYPE = true ->
  (forall k' v', m_customHeaders d !! k' = Some v' ->
                 same_header k' HTTP_HEADERS_CONTENT_TYPE = true -> k' = k) ->
  exists rq,
    effects_of (manipulateData url PostOperation data timeout p u w) d
    = [Transport PostOperation rq (Some data)]
    /\ rawHeader HTTP_HEADERS_CONTENT_TYPE rq = v.
Proof.
  intros Hk Hv Hs Hu. unfold effects_of.
  rewrite manipulateData_run, run_request_dispatchable by reflexivity.
  eexists. split; [reflexivity|].
  pose proof (merge_custom_headers_lookup _ HTTP_HEADERS_CONTENT_TYPE k v
                QNetworkRequest_new Hk Hv Hs Hu) as Hm.
  unfold rawHeader in *. cbn [rawHeaders setUrl]. unfold rawHeader. rewrite Hm, Hv, andb_false_r.
  exact Hm.
Qed.

(** Every value of the custom header mapping is non-empty, as long as the
    mapping is only filled through [appendRawHeader]. *)
Lemma appendRawHeader_values_nonempty name value d :
  (forall k v, m_customHeaders d !! k = Some v -> isEmpty v = false) ->
  forall k v, m_customHeaders (state_after (appendRawHeader name value) d) !! k = Some v ->
              isEmpty v = false.
Proof.
  intros Hd k v. unfold state_after, appendRawHeader.
  destruct (isEmpty value) eqn:E; cbn [negb modify ret fst snd]; [apply Hd|].
  cbn [m_customHeaders set_m_customHeaders]. intros H.
  destruct (decide (name = k)) as [->|Hne].
  - rewrite lookup_insert_eq in H. now injection H as <-.
  - rewrite lookup_insert_ne in H by assumption. now apply (Hd k).
Qed.

End Extras.

Example post_explicit_content_type :
  let d := state_after (appendRawHeader "content-type" "text/plain") sample_downloader in
  exists rq,
    effects_of (uploadFile "http://example.com/form" "a=1" 5000 false "" "") d
    = [Transport PostOperation rq (Some "a=1")]
    /\ rawHeaders rq = [("content-type", "text/plain")].
Proof. eexists. split; vm_compute; reflexivity. Qed.

Example post_default_content_type :
  exists rq,
    effects_of (uploadFile "http://example.com/form" "a=1" 5000 false "" "") sample_downloader
    = [Transport PostOperation rq (Some "a=1")]
    /\ rawHeaders rq = [("Content-Type", "application/x-www-form-urlencoded")].
Proof. eexists. split; vm_compute; reflexivity. Qed.

(** The URL model at work. *)
Example fromString_old :
  QUrl.fromString "http://example.com/old"
  = QUrl.mkUrl "http" (Some (QUrl.mkAuthority None "example.com" None)) "/old" None None false.
Proof. reflexivity. Qed.

Example fromString_full :
  QUrl.fromString "HTTP://bob:pw@Example.com:8080/a/b?x=1#top"
  = QUrl.mkUrl "http" (Some (QUrl.mkAuthority (Some "bob:pw") "example.com" (Some 8080%N)))
      "/a/b" (Some "x=1") (Some "top") false.
Proof. reflexivity. Qed.

Example fromString_relative :
  QUrl.fromString "/new" = QUrl.mkUrl "" None "/new" None None false
  /\ QUrl.isValid (QUrl.fromString "/new") = true
  /\ QUrl.isValid QUrl.empty = false
  /\ QUrl.toString (QUrl.fromString "http://bob@example.com:8080/a?x#y")
     = "http://bob@example.com:8080/a?x#y".
Proof. repeat split; reflexivity. Qed.

(** ** The theorems at concrete inputs *)

Lemma post_content_type_default_witness :
  let d := state_after (appendRawHeader "content-type" "text/plain") sample_downloader in
  (m_customHeaders d !! "content-type" = Some "text/plain"
   /\ isEmpty "text/plain" = false
   /\ same_header "content-type" HTTP_HEADERS_CONTENT_TYPE = true)
  /\ (exists rq,
        effects_of (manipulateData "http://example.com/form" PostOperation "a=1" 5000
                      false "" "") d
        = [Transport PostOperation rq (Some "a=1")]
        /\ rawHeader HTTP_HEADERS_CONTENT_TYPE rq = "text/plain")
  /\ (exists rq,
        effects_of (manipulateData "http://example.com/form" PostOperation "a=1" 5000
                      false "" "") sample_downloader
        = [Transport PostOperation rq (Some "a=1")]
        /\ rawHeader HTTP_HEADERS_CONTENT_TYPE rq = "application/x-www-form-urlencoded").
Proof.
  intros d. split; [repeat split|]. split.
  - destruct (post_content_type_default "http://example.com/form" "a=1" 5000 false "" "" d)
      as (rq & H1 & _ & _ & _ & H5).
    exists rq. split; [exact H1|].
    apply (H5 "content-type" "text/plain"); try reflexivity.
    intros k' v' Hk' _.
    destruct (decide ("content-type" = k')) as [<-|Hne]; [reflexivity|].
    unfold d, state_after, appendRawHeader in Hk'. cbn in Hk'.
    rewrite lookup_insert_ne in Hk' by assumption. rewrite lookup_empty in Hk'. discriminate.
  - destruct (post_content_type_default "http://example.com/form" "a=1" 5000 false "" ""
                sample_downloader) as (rq & H1 & _ & _ & H4 & _).
    exists rq. split; [exact H1|].
    apply H4. intros k v Hk. unfold sample_downloader, Downloader_ctor in Hk.
    cbn [m_customHeaders] in Hk. rewrite lookup_empty in Hk. discriminate.
Defined.

Lemma redirect_with_host_is_verbatim_witness :
  let reply := sample_reply PostOperation "http://example.com/old" "https://other.org/x?y=1" in
  (QUrl.isValid (redirectionUrl reply) = true
   /\ isEmpty (QUrl.host (redirectionUrl reply)) = false
   /\ dispatchable (operation reply) = true)
  /\ exists rq data,
       effects_of (finished reply) sample_downloader
       = [DeleteLater; Transport (operation reply) rq data]
       /\ request <$> m_activeReply (state_after (finished reply) sample_downloader) = Some rq
       /\ url rq = redirectionUrl reply
       /\ rawHeaders rq = rawHeaders (request reply).
Proof.
  intros reply. split; [repeat split|].
  apply (redirect_with_host_is_verbatim reply sample_downloader); reflexivity.
Defined.

Lemma redirect_keeps_method_body_credentials_witness :
  let reply := sample_reply PutOperation "http://example.com/old" "/new" in
  let d := state_after (manipulateData "http://example.com/old" PutOperation "payload" 5000
                                       true "alice" "secret") sample_downloader in
  (QUrl.isValid (redirectionUrl reply) = true /\ dispatchable (operation reply) = true)
  /\ exists r',
       m_activeReply (state_after (finished reply) d) = Some r'
       /\ operation r' = PutOperation
       /\ sentData r' = Some "payload"
       /\ properties r' !! "protected" = Some (PBool true)
       /\ properties r' !! "username" = Some (PString "alice")
       /\ properties r' !! "password" = Some (PString "secret").
Proof.
  intros reply d. split; [repeat split|].
  destruct (redirect_keeps_method_body_credentials reply d eq_refl eq_refl)
    as (r' & H1 & _ & H3 & H4 & H5 & H6 & H7 & _).
  exists r'. repeat split; assumption.
Defined.

Lemma one_completed_per_chain_witness :
  let mid := [Reply_downloadProgress 10 100;
              Reply_finished (mkResponse (Some (QUrl.fromString "/new")) "" None NoError);
              Time_passes 100;
              Reply_downloadProgress 100 100] in
  let last := mkResponse None "hello" (Some "text/plain") NoError in
  (dispatchable GetOperation = true
   /\ forallb chain_event mid = true
   /\ is_redirect last = false)
  /\ exists es status,
       effects_of (run (Call_manipulateData "http://example.com/old" GetOperation "" 5000
                          false "" "" :: mid ++ [Reply_finished last])) sample_downloader
       = es ++ [Completed status "hello"]
       /\ completions es = 0%nat
       /\ last_outcome (state_after (run (Call_manipulateData "http://example.com/old"
                                            GetOperation "" 5000 false "" ""
                                          :: mid ++ [Reply_finished last])) sample_downloader)
          = ("hello", status, Some "text/plain").
Proof.
  intros mid last. split; [repeat split|].
  apply (proj1 (proj2 (one_completed_per_chain sample_downloader))); reflexivity.
Defined.

Lemma timeout_is_cancel_witness :
  let reply := issued_reply sample_downloader GetOperation (sample_request "http://example.com/old") in
  let resp := mkResponse None "partial" None NoError in
  (m_activeReply sample_active = Some reply
   /\ fst (QTimer.elapse 5000 (m_timer sample_active)) = true
   /\ is_redirect resp = false)
  /\ run [Time_passes 5000; Reply_finished resp] sample_active
     = run [Call_cancel; Reply_finished resp] sample_active
  /\ effects_of (run [Time_passes 5000; Reply_finished resp]) sample_active
     = [Abort; DeleteLater; Completed OperationCanceledError "partial"].
Proof.
  intros reply resp. split; [repeat split|].
  destruct (timeout_is_cancel sample_active reply 5000 resp eq_refl eq_refl)
    as (_ & _ & _ & _ & _ & H6 & H7).
  split; [exact H6 | exact (H7 eq_refl)].
Defined.

Lemma redirect_to_absolute_path_witness :
  let reply := sample_reply GetOperation "http://example.com/old" "/new" in
  (redirectionTarget (response reply) = Some (QUrl.fromString "/new")
   /\ absolute_path "/new" = true
   /\ dispatchable (operation reply) = true
   /\ plain_scheme (QUrl.scheme (url (request reply))) = true
   /\ plain_host (QUrl.host (url (request reply))) = true)
  /\ exists rq data,
       effects_of (finished reply) sample_downloader = [DeleteLater; Transport GetOperation rq data]
       /\ QUrl.scheme (url rq) = "http"
       /\ QUrl.host (url rq) = "example.com"
       /\ QUrl.path (url rq) = "/new".
Proof.
  intros reply. split; [repeat split|].
  destruct (redirect_to_absolute_path reply "/new" sample_downloader
              eq_refl eq_refl eq_refl eq_refl eq_refl)
    as (_ & _ & rq & data & H1 & H2 & H3 & H4 & _).
  exists rq, data. repeat split; assumption.
Defined.

Lemma redirect_drops_port_and_userinfo_witness :
  let reply := sample_reply GetOperation "http://bob@example.com:8080/old" "/new" in
  (QUrl.isValid (redirectionUrl reply) = true
   /\ isEmpty (QUrl.host (redirectionUrl reply)) = true
   /\ dispatchable (operation reply) = true
   /\ QUrl.authority (url (request reply))
      = Some (QUrl.mkAuthority (Some "bob") "example.com" (Some 8080%N)))
  /\ exists rq data,
       effects_of (finished reply) sample_downloader = [DeleteLater; Transport GetOperation rq data]
       /\ url rq = QUrl.fromString "http://example.com/new"
       /\ QUrl.authority (url rq) = Some (QUrl.mkAuthority None "example.com" None).
Proof.
  intros reply. split; [repeat split|].
  destruct (redirect_drops_port_and_userinfo reply sample_downloader eq_refl eq_refl eq_refl)
    as (rq & data & H1 & H2 & H3).
  exists rq, data. split; [exact H1|]. split; [exact H2|].
  exact (H3 "/new" eq_refl eq_refl eq_refl eq_refl).
Defined.

Lemma last_outcome_retained_witness :
  let reply := sample_reply GetOperation "http://example.com/old" "/new" in
  (QUrl.isValid (redirectionUrl reply) = true
   /\ completions (effects_of (handle (Time_passes 5000)) sample_active) = 0%nat)
  /\ last_outcome (state_after (finished reply) sample_active) = last_outcome sample_active
  /\ last_outcome (state_after (handle (Time_passes 5000)) sample_active)
     = last_outcome sample_active.
Proof.
  intros reply. split; [repeat split|].
  destruct (last_outcome_retained sample_active) as (_ & _ & H3 & H4).
  split; [exact (H3 reply eq_refl) | exact (H4 (Time_passes 5000) eq_refl)].
Defined.

(** ** Further properties of the Downloader *)

Section MoreDownloaderFacts.

Lemma cancel_result d :
  cancel d
  = (tt,
     match m_activeReply d with
     | Some r => set_m_activeReply (Some (abort r)) d
     | None => d
     end,
     match m_activeReply d with
     | Some _ => [Abort]
     | None => []
     end).
Proof.
  unfold cancel. cbv [bind get emit activeReply modify ret].
  destruct d as [[r|] tm h i tp tu tw lo le lc]; reflexivity.
Qed.

Lemma timer_tick_result ms d :
  timer_tick ms d
  = (let d1 := set_m_timer (snd (QTimer.elapse ms (m_timer d))) d in
     if fst (QTimer.elapse ms (m_timer d))
     then (tt, state_after cancel d1, effects_of cancel d1)
     else (tt, d1, [])).
Proof.
  unfold timer_tick, state_after, effects_of. cbv [bind get modify].
  destruct (QTimer.elapse ms (m_timer d)) as [[] tm']; cbn [fst snd ret].
  - now destruct (cancel (set_m_timer tm' d)) as [[[] d2] es].
  - reflexivity.
Qed.

Lemma progressInternal_result r t d :
  progressInternal r t d
  = (tt,
     (if 0 <? QTimer.interval (m_timer d)
      then set_m_timer (QTimer.start (m_timer d)) d else d),
     [Progress r t]).
Proof.
  unfold progressInternal. cbv [bind get timer modify emit ret].
  destruct (0 <? QTimer.interval (m_timer d)); reflexivity.
Qed.

End MoreDownloaderFacts.

(** X2: [manipulateData] has no branch for an operation other than GET,
    POST, PUT and DELETE: for HEAD or a custom operation nothing is sent and
    the active reply, if any, is left as it was, yet the body, the
    credentials and the timer interval given are stored. *)
Theorem manipulateData_other_operation_sends_nothing url op data timeout p u w d :
  dispatchable op = false ->
  effects_of (manipulateData url op data timeout p u w) d = []
  /\ state_after (manipulateData url op data timeout p u w) d
     = mkDownloader (m_activeReply d) (QTimer.setInterval timeout (m_timer d))
         (m_customHeaders d) data p u w
         (m_lastOutputData d) (m_lastOutputError d) (m_lastContentType d).
Proof.
  intros Hop. unfold effects_of, state_after.
  rewrite manipulateData_run, (run_request_other _ _ _ Hop). split; reflexivity.
Qed.

Lemma manipulateData_other_operation_sends_nothing_witness :
  dispatchable HeadOperation = false
  /\ effects_of (manipulateData "http://example.com/" HeadOperation "x" 10 true "u" "w")
       sample_active = []
  /\ m_inputData (state_after (manipulateData "http://example.com/" HeadOperation "x" 10 true
                                 "u" "w") sample_active) = "x".
Proof.
  split; [reflexivity|].
  destruct (manipulateData_other_operation_sends_nothing
              "http://example.com/" HeadOperation "x" 10 true "u" "w" sample_active eq_refl)
    as [H1 H2].
  split; [exact H1 | now rewrite H2].
Defined.

(** X3: a GET, PUT or DELETE carries the headers of the custom header
    mapping and no others.  Under a name the mapping does not hold, in any
    case, the request has no header, so that no content type is added, also
    when a PUT carries a body (the default content type is for POST only);
    under a name the mapping holds once, with a value that is not empty,
    the request has that value.  The URL is the one parsed from the text
    given, and the payload is the body for PUT and nothing for GET and
    DELETE. *)
Theorem non_post_request_has_custom_headers_only url op data timeout p u w d :
  dispatchable op = true ->
  op <> PostOperation ->
  exists rq,
    effects_of (manipulateData url op data timeout p u w) d = [Transport op rq (payload op data)]
    /\ Net.url rq = QUrl.fromString url
    /\ (forall name,
          (forall k v, m_customHeaders d !! k = Some v -> same_header k name = false) ->
          rawHeader name rq = "")
    /\ (forall k v name,
          m_customHeaders d !! k = Some v ->
          isEmpty v = false ->
          same_header k name = true ->
          (forall k' v', m_customHeaders d !! k' = Some v' -> same_header k' name = true -> k' = k) ->
          rawHeader name rq = v).
Proof.
  intros Hop Hne. unfold effects_of.
  rewrite manipulateData_run, (run_request_dispatchable _ _ _ Hop). cbn [snd m_inputData].
  rewrite bool_decide_eq_false_2 by assumption. cbn [andb].
  eexists. split; [reflexivity|]. split; [reflexivity|]. split.
  - intros name Hnone. unfold rawHeader. cbn [rawHeaders setUrl].
    exact (merge_custom_headers_absent _ name QNetworkRequest_new Hnone).
  - intros k v name Hk Hv Hs Hu. unfold rawHeader. cbn [rawHeaders setUrl].
    exact (merge_custom_headers_lookup _ name k v QNetworkRequest_new Hk Hv Hs Hu).
Qed.

Lemma non_post_request_has_custom_headers_only_witness :
  let d := state_after (appendRawHeader "X-Auth" "token1") sample_downloader in
  (dispatchable PutOperation = true
   /\ PutOperation <> PostOperation
   /\ m_customHeaders d !! "X-Auth" = Some "token1")
  /\ exists rq,
       effects_of (manipulateData "http://example.com/doc" PutOperation "text" 5000 false "" "") d
       = [Transport PutOperation rq (Some "text")]
       /\ rawHeader HTTP_HEADERS_CONTENT_TYPE rq = ""
       /\ rawHeader "x-auth" rq = "token1".
Proof.
  intros d.
  assert (Honly : forall k v, m_customHeaders d !! k = Some v -> k = "X-Auth").
  { intros k v Hk. destruct (decide ("X-Auth" = k)) as [<-|Hne]; [reflexivity|].
    unfold d, state_after, appendRawHeader in Hk. cbn in Hk.
    rewrite lookup_insert_ne in Hk by assumption. rewrite lookup_empty in Hk. discriminate. }
  split; [split; [reflexivity | split; [discriminate | reflexivity]]|].
  destruct (non_post_request_has_custom_headers_only
              "http://example.com/doc" PutOperation "text" 5000 false "" "" d)
    as (rq & H1 & _ & H3 & H4); [reflexivity | discriminate |].
  exists rq. split; [exact H1|]. split.
  - apply H3. intros k v Hk. now rewrite (Honly k v Hk).
  - apply (H4 "X-Auth" "token1"); try reflexivity.
    intros k' v' Hk' _. exact (Honly k' v' Hk').
Defined.

(** X4: whatever the state, and so also while a reply is still active, the
    only effect of a dispatch is the new transport call: the reply that was
    active is neither aborted nor deleted, it is replaced by the new one,
    which is not aborted and has no response yet. *)
Theorem dispatch_replaces_active_reply url op data timeout p u w d :
  dispatchable op = true ->
  exists rq,
    effects_of (manipulateData url op data timeout p u w) d = [Transport op rq (payload op data)]
    /\ m_activeReply (state_after (manipulateData url op data timeout p u w) d)
       = Some (mkReply op rq (payload op data)
                 (<["password" := PString w]>
                    (<["username" := PString u]> (<["protected" := PBool p]> ∅)))
                 false no_response)
    /\ Net.url rq = QUrl.fromString url.
Proof.
  intros Hop. unfold effects_of, state_after.
  rewrite manipulateData_run, (run_request_dispatchable _ _ _ Hop).
  eexists. repeat split.
Qed.

Lemma dispatch_replaces_active_reply_witness :
  (is_Some (m_activeReply sample_active) /\ dispatchable DeleteOperation = true)
  /\ exists rq,
       effects_of (manipulateData "http://example.com/x" DeleteOperation "" 5000 false "" "")
         sample_active = [Transport DeleteOperation rq None].
Proof.
  split; [split; [eexists; reflexivity | reflexivity]|].
  destruct (dispatch_replaces_active_reply "http://example.com/x" DeleteOperation "" 5000
              false "" "" sample_active eq_refl) as (rq & H & _).
  exists rq. exact H.
Defined.

(** X5: the timeout is counted per request of a redirect chain: the
    continuation of a redirect starts the timer anew with the interval of
    the dispatch, whatever was left of it. *)
Theorem redirect_restarts_timer reply d :
  QUrl.isValid (redirectionUrl reply) = true ->
  dispatchable (operation reply) = true ->
  0 <= QTimer.interval (m_timer d) ->
  QTimer.interval (m_timer (state_after (finished reply) d)) = QTimer.interval (m_timer d)
  /\ QTimer.remaining (m_timer (state_after (finished reply) d))
     = Some (QTimer.interval (m_timer d)).
Proof.
  intros Hv Hop Hi. unfold state_after.
  rewrite (finished_redirect_dispatchable _ _ Hv Hop). cbn [fst snd m_timer].
  unfold QTimer.start, QTimer.stop. cbn [QTimer.interval QTimer.remaining QTimer.singleShot].
  split; [reflexivity|].
  now rewrite (proj2 (Z.ltb_ge _ _) Hi).
Qed.

Lemma redirect_restarts_timer_witness :
  let reply := sample_reply GetOperation "http://example.com/old" "/new" in
  let d := state_after (handle (Time_passes 4000)) sample_active in
  (QUrl.isValid (redirectionUrl reply) = true
   /\ dispatchable (operation reply) = true
   /\ 0 <= QTimer.interval (m_timer d)
   /\ QTimer.remaining (m_timer d) = Some 1000)
  /\ QTimer.remaining (m_timer (state_after (finished reply) d)) = Some 5000.
Proof.
  intros reply d. split; [repeat split; discriminate|].
  apply (redirect_restarts_timer reply d); [reflexivity | reflexivity | discriminate].
Defined.

Section TimerFacts.

Lemma dispatch_arms url op data timeout p u w d :
  dispatchable op = true -> 0 <= timeout ->
  armed timeout (state_after (manipulateData url op data timeout p u w) d).
Proof.
  intros Hop Ht. unfold state_after.
  rewrite manipulateData_run, (run_request_dispatchable _ _ _ Hop). cbn [fst snd].
  eexists _, (QTimer.singleShot (m_timer d)).
  split; [reflexivity|]. split; [reflexivity|]. cbn [m_timer set_m_timer set_m_activeReply].
  unfold QTimer.setInterval.
  destruct (QTimer.isActive (m_timer d)); unfold QTimer.start;
    cbn [QTimer.interval QTimer.singleShot QTimer.remaining];
    now rewrite (proj2 (Z.ltb_ge _ _) Ht).
Qed.

Lemma armed_time_passes timeout ms d :
  armed timeout d ->
  effects_of (handle (Time_passes ms)) d = (if timeout <=? ms then [Abort] else [])
  /\ (ms < timeout -> exists r ss,
        m_activeReply (state_after (handle (Time_passes ms)) d) = Some r
        /\ aborted r = false
        /\ m_timer (state_after (handle (Time_passes ms)) d)
           = QTimer.mkTimer timeout ss (Some (timeout - ms))).
Proof.
  intros (r & ss & Hr & Ha & Htm). cbn [handle]. unfold effects_of, state_after.
  rewrite timer_tick_result. unfold QTimer.elapse. rewrite Htm. cbn [QTimer.remaining].
  destruct (timeout <=? ms) eqn:E; cbn [fst snd].
  - split.
    + unfold effects_of. rewrite cancel_result. cbn [snd].
      destruct d; cbn [m_activeReply set_m_timer] in *. now rewrite Hr.
    + intros Hlt. apply Z.leb_le in E. lia.
  - split; [reflexivity|]. intros _. exists r, ss.
    destruct d; cbn [m_activeReply m_timer set_m_timer] in *. repeat split; assumption.
Qed.

Lemma armed_tick timeout g r t d :
  0 < timeout -> g < timeout -> armed timeout d ->
  effects_of (run [Time_passes g; Reply_downloadProgress r t]) d = [Progress r t]
  /\ armed timeout (state_after (run [Time_passes g; Reply_downloadProgress r t]) d).
Proof.
  intros Ht Hg Hd.
  destruct (armed_time_passes timeout g d Hd) as [He Hs].
  destruct (Hs Hg) as (r0 & ss & Hr & Ha & Htm). clear Hs.
  rewrite (proj2 (Z.leb_gt _ _) Hg) in He.
  unfold effects_of, state_after in *. rewrite !run_cons.
  destruct (handle (Time_passes g) d) as [[[] d1] e1]. cbn [fst snd] in *. subst e1.
  cbn [handle run ret]. cbv [bind get]. rewrite Hr. rewrite progressInternal_result.
  rewrite Htm. cbn [QTimer.interval fst snd app].
  assert (Hpos : (0 <? timeout) = true) by (apply Z.ltb_lt; lia).
  cbv [ret]. cbn [fst snd app]. rewrite Hpos.
  split; [reflexivity|]. exists r0, ss.
  destruct d1; cbn [m_activeReply m_timer set_m_timer] in *. subst.
  repeat split; try assumption.
  unfold QTimer.start. cbn [QTimer.interval QTimer.singleShot].
  now rewrite (proj2 (Z.ltb_ge timeout 0)) by lia.
Qed.

Lemma armed_ticks timeout ticks d :
  0 < timeout ->
  forallb (fun k => fst (fst k) <? timeout) ticks = true ->
  armed timeout d ->
  effects_of (run (tick_events ticks)) d = map (fun k => Progress (snd (fst k)) (snd k)) ticks
  /\ armed timeout (state_after (run (tick_events ticks)) d).
Proof.
  intros Ht. revert d. induction ticks as [|[[g r] t] ticks IH]; intros d Hg Hd.
  - split; [reflexivity | exact Hd].
  - cbn [forallb fst snd] in Hg. apply andb_true_iff in Hg as [Hg1 Hg2].
    apply Z.ltb_lt in Hg1.
    destruct (armed_tick timeout g r t d Ht Hg1 Hd) as [He Hd1].
    change (tick_events ((g, r, t) :: ticks))
      with ([Time_passes g; Reply_downloadProgress r t] ++ tick_events ticks).
    unfold effects_of, state_after in *. rewrite run_app.
    destruct (run [Time_passes g; Reply_downloadProgress r t] d) as [[[] d1] e1].
    cbn [fst snd] in *. subst e1.
    destruct (IH d1 Hg2 Hd1) as [He2 Hd2].
    destruct (run (tick_events ticks) d1) as [[[] d2] e2]. cbn [fst snd] in *.
    split; [now rewrite He2 | exact Hd2].
Qed.

End TimerFacts.

(** X6: the timeout is an inactivity timeout.  After a dispatch with a
    positive timeout, progress ticks that each arrive less than the timeout
    after the one before (or after the dispatch) are all passed on, in
    order, and the reply is never aborted, however long the ticks take
    together. *)
Theorem progress_keeps_operation_alive url op data timeout p u w ticks d :
  dispatchable op = true ->
  0 < timeout ->
  forallb (fun k => fst (fst k) <? timeout) ticks = true ->
  let d1 := state_after (manipulateData url op data timeout p u w) d in
  effects_of (run (tick_events ticks)) d1
  = map (fun k => Progress (snd (fst k)) (snd k)) ticks
  /\ aborted <$> m_activeReply (state_after (run (tick_events ticks)) d1) = Some false.
Proof.
  intros Hop Ht Hticks d1.
  assert (Hd1 : armed timeout d1) by (apply dispatch_arms; [assumption | lia]).
  destruct (armed_ticks timeout ticks d1 Ht Hticks Hd1) as [He (r & ss & Hr & Ha & _)].
  split; [exact He|]. now rewrite Hr, <- Ha.
Qed.

Lemma progress_keeps_operation_alive_witness :
  let ticks := [(4000, 10, 100); (4999, 50, 100); (3000, 100, 100)] in
  (dispatchable GetOperation = true
   /\ 0 < 5000
   /\ forallb (fun k => fst (fst k) <? 5000) ticks = true)
  /\ effects_of (run (tick_events ticks)) sample_active
     = [Progress 10 100; Progress 50 100; Progress 100 100].
Proof.
  intros ticks. split; [repeat split|].
  apply (progress_keeps_operation_alive "http://example.com/old" GetOperation "" 5000
           false "" "" ticks sample_downloader); reflexivity.
Defined.

(** X7: after a dispatch with a timeout that is not negative, silence
    aborts the reply exactly when it lasts the timeout or longer: the timer
    then calls [cancel] once; a shorter silence has no effect. *)
Theorem silence_aborts_at_timeout url op data timeout p u w ms d :
  dispatchable op = true ->
  0 <= timeout ->
  let d1 := state_after (manipulateData url op data timeout p u w) d in
  effects_of (handle (Time_passes ms)) d1 = (if timeout <=? ms then [Abort] else [])
  /\ aborted <$> m_activeReply (state_after (handle (Time_passes ms)) d1)
     = Some (timeout <=? ms).
Proof.
  intros Hop Ht d1.
  assert (Hd1 : armed timeout d1) by now apply dispatch_arms.
  destruct (armed_time_passes timeout ms d1 Hd1) as [He Hs].
  split; [exact He|].
  destruct (timeout <=? ms) eqn:E.
  - destruct Hd1 as (r & ss & Hr & Ha & Htm).
    cbn [handle]. unfold state_after. rewrite timer_tick_result.
    unfold QTimer.elapse. rewrite Htm. cbn [QTimer.remaining]. rewrite E. cbn [fst snd].
    unfold state_after. rewrite cancel_result. cbn [fst snd].
    destruct d1; cbn [m_activeReply set_m_timer] in *. now rewrite Hr.
  - apply Z.leb_gt in E. destruct (Hs E) as (r & ss & Hr & Ha & _).
    rewrite Hr. cbn [fmap option_fmap option_map]. now rewrite Ha.
Qed.

Lemma silence_aborts_at_timeout_witness :
  (dispatchable GetOperation = true /\ 0 <= 5000)
  /\ effects_of (handle (Time_passes 5000)) sample_active = [Abort]
  /\ effects_of (handle (Time_passes 4999)) sample_active = [].
Proof.
  split; [split; [reflexivity | discriminate]|].
  split.
  - apply (silence_aborts_at_timeout "http://example.com/old" GetOperation "" 5000 false "" ""
             5000 sample_downloader); [reflexivity | discriminate].
  - apply (silence_aborts_at_timeout "http://example.com/old" GetOperation "" 5000 false "" ""
             4999 sample_downloader); [reflexivity | discriminate].
Defined.

Section QuiescenceFacts.

Lemma idle_passive ev d :
  m_activeReply d = None -> QTimer.remaining (m_timer d) = None ->
  passive_event ev = true ->
  handle ev d = (tt, d, []).
Proof.
  intros Hr Htm Hev. destruct ev; try discriminate Hev; cbn [handle].
  - rewrite cancel_result, Hr. reflexivity.
  - cbv [bind get]. rewrite Hr. reflexivity.
  - cbv [bind get]. rewrite Hr. reflexivity.
  - rewrite timer_tick_result. unfold QTimer.elapse. rewrite Htm. cbn [fst snd].
    destruct d; reflexivity.
Qed.

Lemma idle_quiescent evs d :
  m_activeReply d = None -> QTimer.remaining (m_timer d) = None ->
  forallb passive_event evs = true ->
  run evs d = (tt, d, []).
Proof.
  intros Hr Htm. induction evs as [|ev evs IH]; intros Hevs; [reflexivity|].
  cbn [forallb] in Hevs. apply andb_true_iff in Hevs as [Hev Hevs].
  rewrite run_cons, (idle_passive ev d Hr Htm Hev), (IH Hevs). reflexivity.
Qed.



End QuiescenceFacts.

Lemma quiet_events_passive evs :
  forallb quiet_event evs = true -> forallb passive_event evs = true.
Proof.
  induction evs as [|ev evs IH]; [reflexivity|]. cbn [forallb]. intros H.
  apply andb_true_iff in H as [Hev Hevs]. rewrite (IH Hevs), andb_true_r.
  destruct ev; try discriminate Hev; reflexivity.
Qed.

(** X8: once an operation has completed (a reply has finished without
    redirect) the Downloader is at rest: [finished] has stopped the timer
    and no reply is active, so that time going by and [cancel] change
    nothing and have no effect until the next dispatch. *)
Theorem quiescent_after_completion reply evs d :
  QUrl.isValid (redirectionUrl reply) = false ->
  forallb quiet_event evs = true ->
  run evs (state_after (finished reply) d) = (tt, state_after (finished reply) d, []).
Proof.
  intros Hv Hevs. apply idle_quiescent; [| |now apply quiet_events_passive];
    unfold state_after; rewrite (finished_final _ _ Hv); reflexivity.
Qed.

Lemma quiescent_after_completion_witness :
  let reply := finish (mkResponse None "hello" None NoError)
                      (issued_reply sample_downloader GetOperation
                         (sample_request "http://example.com/old")) in
  let evs := [Time_passes 60000; Call_cancel; Time_passes 1; Call_cancel] in
  (QUrl.isValid (redirectionUrl reply) = false /\ forallb quiet_event evs = true)
  /\ effects_of (run evs) (state_after (finished reply) sample_active) = [].
Proof.
  intros reply evs. split; [split; reflexivity|].
  unfold effects_of.
  now rewrite (quiescent_after_completion reply evs sample_active eq_refl eq_refl).
Defined.

(** X9: a Downloader fresh from its constructor is at rest as well: before
    the first dispatch the timer is not running, [cancel] and the passing
    of time do nothing, and the accessors give an empty body, no error and
    no content type. *)
Theorem fresh_downloader_is_quiescent DOWNLOAD_TIMEOUT evs :
  forallb passive_event evs = true ->
  run evs (Downloader_ctor DOWNLOAD_TIMEOUT) = (tt, Downloader_ctor DOWNLOAD_TIMEOUT, [])
  /\ last_outcome (Downloader_ctor DOWNLOAD_TIMEOUT) = ("", NoError, None).
Proof.
  intros Hevs. split; [|reflexivity].
  apply idle_quiescent; [reflexivity | reflexivity | assumption].
Qed.

Lemma fresh_downloader_is_quiescent_witness :
  forallb passive_event [Time_passes 0; Time_passes 5000; Call_cancel] = true
  /\ run [Time_passes 0; Time_passes 5000; Call_cancel] (Downloader_ctor 0)
     = (tt, Downloader_ctor 0, []).
Proof.
  split; [reflexivity|].
  apply (fresh_downloader_is_quiescent 0 [Time_passes 0; Time_passes 5000; Call_cancel]).
  reflexivity.
Defined.



(** X11: a redirect is never dropped: whatever led to it, when the active
    reply of a Downloader finishes with a valid redirection target, the
    reply is released and exactly one request is sent next, and a reply is
    active again. *)
Theorem redirect_is_always_followed DOWNLOAD_TIMEOUT evs resp :
  let d := reached DOWNLOAD_TIMEOUT evs in
  is_Some (m_activeReply d) ->
  is_redirect resp = true ->
  (exists op rq data,
      effects_of (handle (Reply_finished resp)) d = [DeleteLater; Transport op rq data])
  /\ is_Some (m_activeReply (state_after (handle (Reply_finished resp)) d)).
Proof.
  intros d [r Hr] Hred.
  assert (Hop : dispatchable (operation r) = true).
  { apply (run_keeps_replies_dispatchable evs (Downloader_ctor DOWNLOAD_TIMEOUT)
             (fresh_replies_dispatchable DOWNLOAD_TIMEOUT) r). exact Hr. }
  cbn [handle]. unfold effects_of, state_after. cbv [bind get]. rewrite Hr.
  assert (Hv : QUrl.isValid (redirectionUrl (finish resp r)) = true)
    by now rewrite redirectionUrl_finish.
  assert (Hop' : dispatchable (operation (finish resp r)) = true) by exact Hop.
  rewrite (finished_redirect_dispatchable _ _ Hv Hop'). cbn [fst snd app m_activeReply].
  split; [eexists _, _, _; reflexivity | eexists; reflexivity].
Qed.

Lemma redirect_is_always_followed_witness :
  let evs := [Call_uploadFile "http://example.com/form" "a=1" 5000 false "" "";
              Reply_downloadProgress 1 3; Call_cancel] in
  let resp := mkResponse (Some (QUrl.fromString "/moved")) "" None NoError in
  (is_Some (m_activeReply (reached 5000 evs)) /\ is_redirect resp = true)
  /\ exists op rq data,
       effects_of (handle (Reply_finished resp)) (reached 5000 evs)
       = [DeleteLater; Transport op rq data].
Proof.
  intros evs resp.
  assert (Ha : is_Some (m_activeReply (reached 5000 evs)))
    by (eexists; vm_compute; reflexivity).
  assert (Hr : is_redirect resp = true) by (vm_compute; reflexivity).
  split; [split; assumption|].
  exact (proj1 (redirect_is_always_followed 5000 evs resp Ha Hr)).
Defined.

Section CustomHeaderFacts.

Lemma customHeaders_after_run_request op rq d :
  m_customHeaders (snd (fst (run_request op rq d))) = m_customHeaders d.
Proof. destruct op, d; reflexivity. Qed.

Lemma customHeaders_handle ev d :
  m_customHeaders (state_after (handle ev) d)
  = match ev with
    | Call_appendRawHeader n v =>
        if isEmpty v then m_customHeaders d else <[n := v]> (m_customHeaders d)
    | _ => m_customHeaders d
    end.
Proof.
  assert (Hdispatch : forall url op data timeout p u w,
             m_customHeaders (state_after (manipulateData url op data timeout p u w) d)
             = m_customHeaders d).
  { intros. unfold state_after.
    now rewrite manipulateData_run, customHeaders_after_run_request. }
  destruct ev; cbn [handle]; try apply Hdispatch.
  - unfold state_after. rewrite cancel_result. cbn [fst snd].
    destruct (m_activeReply d); reflexivity.
  - unfold state_after, appendRawHeader. destruct (isEmpty value); reflexivity.
  - unfold state_after. cbv [bind get]. destruct (m_activeReply d); [|reflexivity].
    rewrite progressInternal_result. cbn [fst snd].
    destruct (0 <? QTimer.interval (m_timer d)); reflexivity.
  - unfold state_after. cbv [bind get].
    destruct (m_activeReply d) as [r|]; [|reflexivity].
    destruct (QUrl.isValid (redirectionUrl (finish resp r))) eqn:Hv.
    + rewrite (finished_redirect _ _ Hv). cbv zeta.
      pose proof (customHeaders_after_run_request (operation (finish resp r))
                    (follow_up (finish resp r))
                    (set_m_activeReply None (set_m_timer (QTimer.stop (m_timer d)) d))) as H.
      destruct (run_request _ _ _) as [[[] d2] es]. exact H.
    + rewrite (finished_final _ _ Hv). reflexivity.
  - unfold state_after. rewrite timer_tick_result. cbv zeta.
    destruct (fst (QTimer.elapse ms (m_timer d))); cbn [fst snd]; [|reflexivity].
    unfold state_after. rewrite cancel_result. cbn [fst snd].
    destruct (m_activeReply _); reflexivity.
Qed.

Lemma state_after_run_cons ev evs d :
  state_after (run (ev :: evs)) d = state_after (run evs) (state_after (handle ev) d).
Proof.
  unfold state_after. rewrite run_cons.
  destruct (handle ev d) as [[[] d1] e1]. cbn [fst snd].
  now destruct (run evs d1) as [[[] d2] e2].
Qed.

Lemma find_header_same a b hs :
  same_header a b = true -> find_header a hs = find_header b hs.
Proof.
  intros Hab. induction hs as [|[k v] hs IH]; [reflexivity|]. cbn [find_header].
  rewrite IH.
  destruct (same_header k a) eqn:Ea, (same_header k b) eqn:Eb; try reflexivity.
  - now rewrite (same_header_trans _ _ _ Ea Hab) in Eb.
  - rewrite same_header_sym in Hab. now rewrite (same_header_trans _ _ _ Eb Hab) in Ea.
Qed.

End CustomHeaderFacts.

(** X12: a custom header stays registered.  After [appendRawHeader] with a
    value that is not empty, the mapping gives that value for the name
    through dispatches, progress, redirects, completions, cancellations
    and timeouts, until the name is registered again. *)
Theorem custom_header_persists name value evs d :
  isEmpty value = false ->
  forallb (fun ev => negb (registers name ev)) evs = true ->
  m_customHeaders (state_after (run (Call_appendRawHeader name value :: evs)) d) !! name
  = Some value.
Proof.
  intros Hv Hevs. rewrite state_after_run_cons.
  assert (H0 : m_customHeaders (state_after (handle (Call_appendRawHeader name value)) d) !! name
               = Some value).
  { rewrite customHeaders_handle, Hv. apply lookup_insert_eq. }
  revert H0. generalize (state_after (handle (Call_appendRawHeader name value)) d).
  induction evs as [|ev evs IH]; intros d0 H0; [exact H0|].
  cbn [forallb] in Hevs. apply andb_true_iff in Hevs as [Hev Hevs].
  rewrite state_after_run_cons. apply (IH Hevs).
  rewrite customHeaders_handle. destruct ev; try exact H0.
  cbn [registers] in Hev. destruct (isEmpty value0) eqn:E; [exact H0|].
  rewrite andb_true_r in Hev. apply negb_true_iff in Hev.
  rewrite lookup_insert_ne; [exact H0|]. intros ->. now rewrite String.eqb_refl in Hev.
Qed.

Lemma custom_header_persists_witness :
  let evs := [Call_appendRawHeader "X-Auth" "";
              Call_appendRawHeader "Accept" "text/html";
              Call_downloadFile "http://example.com/old" 5000 false "" "";
              Reply_finished (mkResponse (Some (QUrl.fromString "/new")) "" None NoError);
              Time_passes 5000;
              Reply_finished (mkResponse None "" None OperationCanceledError)] in
  (isEmpty "token1" = false /\ forallb (fun ev => negb (registers "X-Auth" ev)) evs = true)
  /\ m_customHeaders (state_after (run (Call_appendRawHeader "X-Auth" "token1" :: evs))
                        sample_downloader) !! "X-Auth" = Some "token1".
Proof.
  intros evs. split; [split; reflexivity|].
  apply (custom_header_persists "X-Auth" "token1" evs sample_downloader); reflexivity.
Defined.

(** X13: the custom header mapping of a Downloader never holds an empty
    value, whatever calls and events it has seen since its construction. *)
Theorem custom_header_values_never_empty DOWNLOAD_TIMEOUT evs k v :
  m_customHeaders (reached DOWNLOAD_TIMEOUT evs) !! k = Some v ->
  isEmpty v = false.
Proof.
  unfold reached.
  assert (H : forall d,
             (forall k v, m_customHeaders d !! k = Some v -> isEmpty v = false) ->
             forall k v, m_customHeaders (state_after (run evs) d) !! k = Some v ->
                         isEmpty v = false).
  { induction evs as [|ev evs IH]; intros d Hd; [exact Hd|].
    intros k0 v0. rewrite state_after_run_cons. apply IH. clear k0 v0.
    intros k0 v0. rewrite customHeaders_handle. destruct ev; try apply Hd.
    destruct (isEmpty value) eqn:E; [apply Hd|].
    destruct (decide (name = k0)) as [->|Hne].
    - rewrite lookup_insert_eq. now intros [= <-].
    - rewrite lookup_insert_ne by assumption. apply Hd. }
  apply H. intros k0 v0. unfold Downloader_ctor. cbn [m_customHeaders].
  rewrite lookup_empty. discriminate.
Qed.

Lemma custom_header_values_never_empty_witness :
  let evs := [Call_appendRawHeader "X-Auth" "token1"; Call_appendRawHeader "X-Auth" ""] in
  m_customHeaders (reached 5000 evs) !! "X-Auth" = Some "token1"
  /\ isEmpty "token1" = false.
Proof.
  intros evs. split; [reflexivity|].
  apply (custom_header_values_never_empty 5000 evs "X-Auth" "token1"). reflexivity.
Defined.

(** X14: a registered custom header goes out with every request.  When the
    mapping gives a value that is not empty for a name, and holds no other
    name that differs from it by case only, then the request of any
    dispatch (GET, POST, PUT or DELETE) carries that value under the name,
    read without regard to case. *)
Theorem custom_header_reaches_request url op data timeout p u w k v name d :
  dispatchable op = true ->
  m_customHeaders d !! k = Some v ->
  isEmpty v = false ->
  same_header k name = true ->
  (forall k' v', m_customHeaders d !! k' = Some v' -> same_header k' name = true -> k' = k) ->
  exists rq,
    effects_of (manipulateData url op data timeout p u w) d = [Transport op rq (payload op data)]
    /\ rawHeader name rq = v.
Proof.
  intros Hop Hk Hv Hs Hu. unfold effects_of.
  rewrite manipulateData_run, (run_request_dispatchable _ _ _ Hop). cbn [snd m_inputData].
  eexists. split; [reflexivity|].
  pose proof (merge_custom_headers_lookup _ name k v QNetworkRequest_new Hk Hv Hs Hu) as Hm.
  cbv zeta. set (merged := merge_custom_headers (m_customHeaders d) QNetworkRequest_new) in *.
  destruct (bool_decide (op = PostOperation)
            && isEmpty (rawHeader HTTP_HEADERS_CONTENT_TYPE merged)) eqn:E; [|exact Hm].
  apply andb_true_iff in E as [_ E].
  unfold rawHeader at 1. cbn [rawHeaders setUrl].
  change (rawHeader name (setRawHeader HTTP_HEADERS_CONTENT_TYPE
                            "application/x-www-form-urlencoded" merged) = v).
  rewrite rawHeader_setRawHeader_other; [exact Hm|].
  destruct (same_header HTTP_HEADERS_CONTENT_TYPE name) eqn:Ec; [|reflexivity].
  unfold rawHeader in *.
  rewrite (find_header_same _ _ _ Ec), Hm, Hv in E. discriminate E.
Qed.

Lemma custom_header_reaches_request_witness :
  let d := state_after (appendRawHeader "X-Auth" "token1") sample_downloader in
  (dispatchable PostOperation = true
   /\ m_customHeaders d !! "X-Auth" = Some "token1"
   /\ isEmpty "token1" = false
   /\ same_header "X-Auth" "x-auth" = true)
  /\ exists rq,
       effects_of (manipulateData "http://example.com/form" PostOperation "a=1" 5000 false "" "") d
       = [Transport PostOperation rq (Some "a=1")]
       /\ rawHeader "x-auth" rq = "token1".
Proof.
  intros d. split; [repeat split|].
  apply (custom_header_reaches_request "http://example.com/form" PostOperation "a=1" 5000
           false "" "" "X-Auth" "token1" "x-auth" d); try reflexivity.
  intros k' v' Hk' _.
  destruct (decide ("X-Auth" = k')) as [<-|Hne]; [reflexivity|].
  unfold d, state_after, appendRawHeader in Hk'. cbn in Hk'.
  rewrite lookup_insert_ne in Hk' by assumption. rewrite lookup_empty in Hk'. discriminate.
Defined.

(** X15: a redirect replays the dispatch.  A dispatch followed by a reply
    with a valid redirection target has three effects: the first request,
    the release of its reply, and a second request with the same operation,
    the same payload and the same headers (the default content type of a
    POST among them); the new reply carries the credentials given to
    [manipulateData]. *)
Theorem redirect_replays_dispatch url op data timeout p u w resp d :
  dispatchable op = true ->
  is_redirect resp = true ->
  exists rq0 rq1 r1,
    effects_of (run [Call_manipulateData url op data timeout p u w; Reply_finished resp]) d
    = [Transport op rq0 (payload op data); DeleteLater; Transport op rq1 (payload op data)]
    /\ rawHeaders rq1 = rawHeaders rq0
    /\ m_activeReply (state_after (run [Call_manipulateData url op data timeout p u w;
                                        Reply_finished resp]) d) = Some r1
    /\ request r1 = rq1
    /\ properties r1 !! "protected" = Some (PBool p)
    /\ properties r1 !! "username" = Some (PString u)
    /\ properties r1 !! "password" = Some (PString w).
Proof.
  intros Hop Hred. unfold effects_of, state_after. rewrite !run_cons. cbn [handle run ret].
  rewrite manipulateData_run, (run_request_dispatchable _ _ _ Hop).
  cbv [bind get]. cbn [m_activeReply set_m_activeReply].
  rewrite finished_redirect_dispatchable;
    [| now rewrite redirectionUrl_finish | exact Hop].
  cbn [fst snd app m_activeReply m_inputData set_m_activeReply set_m_timer].
  eexists _, _, _. split; [reflexivity|]. split; [reflexivity|]. split; [reflexivity|].
  match goal with |- context [issued_reply ?d ?o ?r] =>
    destruct (issued_reply_fields d o r) as (_ & H2 & _ & H4 & H5 & H6 & _) end.
  repeat split; assumption.
Qed.

Lemma redirect_replays_dispatch_witness :
  let resp := mkResponse (Some (QUrl.fromString "/new")) "" None NoError in
  (dispatchable PostOperation = true /\ is_redirect resp = true)
  /\ exists rq0 rq1,
       effects_of (run [Call_manipulateData "http://example.com/old" PostOperation "a=1" 5000
                          true "alice" "secret";
                        Reply_finished resp]) sample_downloader
       = [Transport PostOperation rq0 (Some "a=1"); DeleteLater;
          Transport PostOperation rq1 (Some "a=1")]
       /\ rawHeaders rq1 = rawHeaders rq0.
Proof.
  intros resp. split; [split; reflexivity|].
  destruct (redirect_replays_dispatch "http://example.com/old" PostOperation "a=1" 5000
              true "alice" "secret" resp sample_downloader eq_refl eq_refl)
    as (rq0 & rq1 & r1 & H1 & H2 & _).
  exists rq0, rq1. split; assumption.
Defined.

(** ** The status widget *)

Section WidgetFacts.

Context {QIcon : Type} (fromTheme : string -> QIcon).

Lemma widget_ok_ctor : widget_ok fromTheme (Wws.WidgetWithStatus_ctor fromTheme).
Proof. repeat split. Qed.

Lemma widget_ok_setStatus status tooltip w :
  widget_ok fromTheme w -> widget_ok fromTheme (Wws.setStatus status tooltip w).
Proof.
  intros (H1 & H2 & H3 & H4 & H5 & _ & H7 & H8).
  destruct w as [s i m [ic tt fp] ip ii iw ie io]. cbn in *. subst.
  destruct status; repeat split.
Qed.

Lemma last_of_cons {A} (c : A) l d d' : List.last (c :: l) d = List.last (c :: l) d'.
Proof.
  revert c. induction l as [|x l IH]; intros c; [reflexivity|].
  change (List.last (x :: l) d = List.last (x :: l) d'). apply IH.
Qed.

Lemma after_calls_last calls (w : Wws.WidgetWithStatus QIcon) :
  (Wws.m_status (Wws.after_calls calls w), Wws.toolTip (Wws.m_btnStatus (Wws.after_calls calls w)))
  = List.last calls (Wws.m_status w, Wws.toolTip (Wws.m_btnStatus w)).
Proof.
  revert w. induction calls as [|[s t] calls IH]; intros w; [reflexivity|].
  change (Wws.after_calls ((s, t) :: calls) w)
    with (Wws.after_calls calls (Wws.setStatus s t w)).
  rewrite IH. destruct calls as [|c calls]; [destruct s; reflexivity|].
  change (List.last ((s, t) :: c :: calls) (Wws.m_status w, Wws.toolTip (Wws.m_btnStatus w)))
    with (List.last (c :: calls) (Wws.m_status w, Wws.toolTip (Wws.m_btnStatus w))).
  apply last_of_cons.
Qed.

Lemma widget_ok_after_calls calls w :
  widget_ok fromTheme w -> widget_ok fromTheme (Wws.after_calls calls w).
Proof.
  revert w. induction calls as [|[s t] calls IH]; intros w Hw; [exact Hw|].
  apply IH, widget_ok_setStatus, Hw.
Qed.

End WidgetFacts.

(** X16: the status button always shows the themed icon of the current
    status.  After the constructor and any series of [setStatus] calls, the
    icon of the button is the one the theme gives for the status held, the
    status and the tool tip are those of the last call (or [Information]
    and an empty tool tip when there was none), and the button still takes
    no focus. *)
Theorem status_icon_matches_status {QIcon : Type} (fromTheme : string -> QIcon) calls :
  let w := Wws.after_calls calls (Wws.WidgetWithStatus_ctor fromTheme) in
  Wws.icon (Wws.m_btnStatus w) = Some (fromTheme (Wws.theme_name (Wws.m_status w)))
  /\ (Wws.m_status w, Wws.toolTip (Wws.m_btnStatus w)) = List.last calls (Wws.Information, "")
  /\ Wws.focusPolicy (Wws.m_btnStatus w) = Wws.NoFocus.
Proof.
  intros w.
  destruct (widget_ok_after_calls fromTheme calls _ (widget_ok_ctor fromTheme))
    as (_ & _ & _ & _ & _ & H6 & H7 & _).
  split; [exact H6|]. split; [|exact H7].
  unfold w. now rewrite after_calls_last.
Qed.

Section ChainFacts.

Lemma redirect_to_absolute_step sch h op loc resp d :
  dispatchable op = true -> plain_scheme sch = true -> plain_host h = true ->
  absolute_path loc = true ->
  requesting sch h op d ->
  requesting sch h op (state_after (handle (Reply_finished (redirect_to loc resp))) d)
  /\ exists rq,
       effects_of (handle (Reply_finished (redirect_to loc resp))) d
       = [DeleteLater; Transport op rq (payload op (m_inputData d))]
       /\ QUrl.scheme (url rq) = sch /\ QUrl.host (url rq) = h
       /\ QUrl.path (url rq) = QUrl.path (QUrl.fromString loc).
Proof.
  intros Hop Hs Hh Ha (r & Hr & Ho & Hsc & Hho). subst op sch h.
  cbn [handle]. unfold effects_of, state_after. cbv [bind get]. rewrite Hr.
  set (reply := finish (redirect_to loc resp) r).
  assert (Hru : redirectionUrl reply = QUrl.fromString loc).
  { unfold reply, redirectionUrl, finish, redirect_to. cbn [response redirectionTarget].
    now destruct (aborted r). }
  destruct (isValid_absolute_path _ Ha) as [Hv He].
  rewrite finished_redirect_dispatchable; [| now rewrite Hru | exact Hop].
  cbn [fst snd app m_activeReply].
  assert (Hurl : url (follow_up reply)
                 = QUrl.mkUrl (QUrl.scheme (url (request r)))
                     (Some (QUrl.mkAuthority None (QUrl.host (url (request r))) None))
                     (QUrl.path (QUrl.fromString loc)) (QUrl.query (QUrl.fromString loc))
                     (QUrl.fragment (QUrl.fromString loc)) false).
  { unfold follow_up. cbn [url setUrl]. rewrite Hru.
    now apply (redirect_url_absolute_path (url (request r)) loc). }
  split.
  - eexists. split; [reflexivity|].
    destruct (issued_reply_fields d (operation reply) (follow_up reply)) as (-> & -> & _).
    rewrite Hurl. repeat split.
  - eexists. split; [reflexivity|]. rewrite Hurl. repeat split.
Qed.

Lemma redirect_step_counts resp d :
  in_flight d -> is_redirect resp = true ->
  in_flight (state_after (handle (Reply_finished resp)) d)
  /\ length (List.filter is_transport (effects_of (handle (Reply_finished resp)) d)) = 1%nat
  /\ completions (effects_of (handle (Reply_finished resp)) d) = 0%nat.
Proof.
  intros (r & Hr & Hop) Hred. cbn [handle]. unfold effects_of, state_after.
  cbv [bind get]. rewrite Hr.
  assert (Hv : QUrl.isValid (redirectionUrl (finish resp r)) = true)
    by now rewrite redirectionUrl_finish.
  assert (Hop' : dispatchable (operation (finish resp r)) = true) by exact Hop.
  rewrite (finished_redirect_dispatchable _ _ Hv Hop'). cbn [fst snd app m_activeReply].
  split; [|split; reflexivity].
  eexists. split; [reflexivity|].
  now destruct (issued_reply_fields d (operation (finish resp r)) (follow_up (finish resp r)))
    as (-> & _).
Qed.

Lemma effects_of_run_cons ev evs d :
  effects_of (run (ev :: evs)) d
  = effects_of (handle ev) d ++ effects_of (run evs) (state_after (handle ev) d).
Proof.
  unfold effects_of, state_after. rewrite run_cons.
  destruct (handle ev d) as [[[] d1] e1]. cbn [fst snd].
  now destruct (run evs d1) as [[[] d2] e2].
Qed.

End ChainFacts.

(** X17: a chain of redirects to absolute paths never leaves the server.
    While the scheme and host of the request under way are plain, each
    reply that redirects to an absolute path is followed by a request to
    the same scheme and host, with the same operation, however many
    redirects follow one another. *)
Theorem absolute_path_redirects_stay_on_host sch h op hops d :
  dispatchable op = true ->
  plain_scheme sch = true ->
  plain_host h = true ->
  forallb (fun hop => absolute_path (fst hop)) hops = true ->
  requesting sch h op d ->
  requesting sch h op
    (state_after (run (map (fun hop => Reply_finished (redirect_to (fst hop) (snd hop))) hops)) d).
Proof.
  intros Hop Hs Hh. revert d. induction hops as [|[loc resp] hops IH]; intros d Hhops Hd.
  - exact Hd.
  - cbn [forallb fst snd] in Hhops. apply andb_true_iff in Hhops as [Ha Hhops].
    cbn [map fst snd]. rewrite state_after_run_cons. apply (IH _ Hhops).
    now apply redirect_to_absolute_step.
Qed.

Lemma absolute_path_redirects_stay_on_host_witness :
  let hops := [("/a", no_response); ("/b?x=1", no_response); ("/c/d#top", no_response)] in
  (dispatchable GetOperation = true
   /\ plain_scheme "http" = true
   /\ plain_host "example.com" = true
   /\ forallb (fun hop => absolute_path (fst hop)) hops = true)
  /\ requesting "http" "example.com" GetOperation
       (state_after (run (map (fun hop => Reply_finished (redirect_to (fst hop) (snd hop))) hops))
                    sample_active).
Proof.
  intros hops. split; [repeat split|].
  apply (absolute_path_redirects_stay_on_host "http" "example.com" GetOperation hops sample_active);
    try reflexivity.
  eexists. repeat split.
Defined.

(** X18: redirects are followed without limit.  While an operation is
    under way, any number of replies that finish with a valid redirection
    target gives as many new requests, and no [completed] signal. *)
Theorem redirects_are_followed_without_limit resps d :
  in_flight d ->
  forallb is_redirect resps = true ->
  length (List.filter is_transport (effects_of (run (map Reply_finished resps)) d))
  = length resps
  /\ completions (effects_of (run (map Reply_finished resps)) d) = 0%nat.
Proof.
  revert d. induction resps as [|resp resps IH]; intros d Hd Hres; [split; reflexivity|].
  cbn [forallb] in Hres. apply andb_true_iff in Hres as [Hr Hres].
  destruct (redirect_step_counts resp d Hd Hr) as (Hd1 & Ht & Hc).
  destruct (IH _ Hd1 Hres) as [IHt IHc].
  cbn [map]. rewrite effects_of_run_cons, List.filter_app, List.length_app, completions_app.
  rewrite Ht, Hc, IHt, IHc. split; reflexivity.
Qed.

Lemma redirects_are_followed_without_limit_witness :
  let resps := repeat (mkResponse (Some (QUrl.fromString "/loop")) "" None NoError) 5 in
  (in_flight sample_active /\ forallb is_redirect resps = true)
  /\ length (List.filter is_transport
               (effects_of (run (map Reply_finished resps)) sample_active)) = 5%nat.
Proof.
  intros resps.
  assert (Hin : in_flight sample_active) by (eexists; split; reflexivity).
  split; [split; [exact Hin | reflexivity]|].
  exact (proj1 (redirects_are_followed_without_limit resps sample_active Hin eq_refl)).
Defined.

(** X19: with a negative timeout the inactivity timer is out of the way:
    after the dispatch, whatever time goes by and whatever progress is
    made, the reply is never aborted. *)
Theorem negative_timeout_never_aborts url op data timeout p u w evs d :
  timeout < 0 ->
  forallb waiting_event evs = true ->
  let d1 := state_after (manipulateData url op data timeout p u w) d in
  List.filter is_abort (effects_of (run evs) d1) = [].
Proof.
  intros Ht Hevs d1.
  assert (Hneg : (timeout <? 0) = true) by now apply Z.ltb_lt.
  assert (Hpos : (0 <? timeout) = false) by (apply Z.ltb_ge; lia).
  assert (Hd1 : QTimer.interval (m_timer d1) = timeout /\ QTimer.remaining (m_timer d1) = None).
  { subst d1. unfold state_after. rewrite manipulateData_run, timer_after_run_request.
    cbn [m_timer].
    assert (Hset : QTimer.interval (QTimer.setInterval timeout (m_timer d)) = timeout
                   /\ QTimer.remaining (QTimer.setInterval timeout (m_timer d)) = None).
    { unfold QTimer.setInterval, QTimer.isActive, QTimer.start.
      destruct (m_timer d) as [i ss [r|]]; cbn; rewrite ?Hneg; split; reflexivity. }
    destruct Hset as [Hi Hr]. destruct (dispatchable op); [|split; assumption].
    unfold QTimer.start. rewrite Hi, Hneg. split; reflexivity. }
  clearbody d1. revert d1 Hd1.
  induction evs as [|ev evs IH]; intros d1 [Hi Hr]; [reflexivity|].
  cbn [forallb] in Hevs. apply andb_true_iff in Hevs as [Hev Hevs].
  rewrite effects_of_run_cons, List.filter_app.
  assert (Hstep : List.filter is_abort (effects_of (handle ev) d1) = []
                  /\ QTimer.interval (m_timer (state_after (handle ev) d1)) = timeout
                  /\ QTimer.remaining (m_timer (state_after (handle ev) d1)) = None).
  { destruct ev; try discriminate Hev; cbn [handle]; unfold effects_of, state_after.
    - cbv [bind get]. destruct (m_activeReply d1); [|now repeat split].
      rewrite progressInternal_result, Hi, Hpos. now repeat split.
    - rewrite timer_tick_result. unfold QTimer.elapse. rewrite Hr. cbn [fst snd].
      destruct d1; cbn [m_timer set_m_timer] in *. now repeat split. }
  destruct Hstep as (-> & Hi' & Hr'). now apply IH.
Qed.

Lemma negative_timeout_never_aborts_witness :
  let evs := [Time_passes 0; Time_passes 100000; Reply_downloadProgress 1 2; Time_passes 100000] in
  (-1 < 0 /\ forallb waiting_event evs = true)
  /\ List.filter is_abort
       (effects_of (run evs)
          (state_after (manipulateData "http://example.com/old" GetOperation "" (-1) false "" "")
                       sample_active)) = [].
Proof.
  intros evs. split; [split; reflexivity|].
  apply (negative_timeout_never_aborts "http://example.com/old" GetOperation "" (-1) false "" ""
           evs sample_active); reflexivity.
Defined.
